(** * Online chess server: session state machine, clocks and matchmaking

    Shallow embedding of [server/socketServer.js] (class [Game] and the
    socket.io handlers registered in [io.on('connection', ...)]).  The
    TypeScript twin [src/server/websocketProvider.tsx] (class [GameServer])
    has the same logic line for line.

    Modelling conventions.
    - JavaScript numbers that hold ratings and millisecond clocks are
      integers and are modelled as [Z].  The four coordinates of a
      [makeMove] request are whatever numbers the client put into the JSON
      payload, and the handler does not validate them, so they are
      modelled as [Num]: a whole number or a number strictly between two
      consecutive whole numbers.
    - A listener that ends with an uncaught exception is recorded as the
      effect [Uncaught]: the source has no [try]/[catch] and installs no
      [uncaughtException] handler, so Node prints the error and ends the
      process.  The states the server can be in ([reachable]) are those of
      a process in which no listener has thrown.
    - [Date.now()], [Math.random() > 0.5] and [uuidv4()] are inputs of the
      handler that calls them.
    - A socket is identified by its id; [socket.emit], [io.to(room).emit],
      [io.emit] and [socket.join] are recorded as a list of effects.
    - [games] is a JavaScript [Map] that is iterated ([for ... of games]), so
      it is an association list in insertion order; [players] is a [Map]
      that is only looked up, so it is a [gmap]; [spectators] is a [Set] of
      which only the size is read, so it is a [gset].
    - A [Game] object is reached only through the registry entry of its id
      (ids are created once, by [games.set] in the matchmaking handler), so
      the object captured by the disconnect timer closure is the registry
      entry of the captured id. *)

From stdpp Require Import base option list strings gmap pretty.
From Stdlib Require Import ZArith.

Local Open Scope Z_scope.

(** ** Data model *)

Inductive Color := White | Black.

Inductive Status :=
  playing | check | checkmate | draw | resigned | time_out | disconnected.

(** The twelve piece symbols stored in board cells:
    [WK WQ WR WB WN WP] are the characters of the string '♔♕♖♗♘♙' and
    [BK BQ BR BB BN BP] those of '♚♛♜♝♞♟'. *)
Inductive Piece := WK | WQ | WR | WB | WN | WP | BK | BQ | BR | BB | BN | BP.

#[global] Instance Color_eq_dec : EqDecision Color.
Proof. solve_decision. Defined.
#[global] Instance Status_eq_dec : EqDecision Status.
Proof. solve_decision. Defined.
#[global] Instance Piece_eq_dec : EqDecision Piece.
Proof. solve_decision. Defined.

(** A player object; its [socket] field is the socket whose id is
    [player_id]. *)
Record Player := mkPlayer {
  player_id : string;
  player_name : string;
  player_rating : Z
}.

(** A number received as a coordinate: [whole z] is the integer [z], and
    [fraction below digits] is the number strictly between [below] and
    [below + 1] whose binary digits after the point, read from the last
    one (which is [1]) to the first, are those of [digits]; so 4.5 is
    [fraction 4 1], 4.25 is [fraction 4 2] and 4.75 is [fraction 4 3].
    JSON carries neither [NaN] nor the infinities. *)
Inductive Num :=
| whole (z : Z)
| fraction (below : Z) (digits : positive).

Coercion whole : Z >-> Num.

#[global] Instance Num_eq_dec : EqDecision Num.
Proof. solve_decision. Defined.

(** [x < k] and [x > k] for a whole number [k]. *)
Definition Num_ltb (x : Num) (k : Z) : bool :=
  match x with
  | whole z => z <? k
  | fraction below _ => below <? k
  end.
Definition Num_gtb (x : Num) (k : Z) : bool :=
  match x with
  | whole z => z >? k
  | fraction below _ => below >=? k
  end.

Record Move := mkMove {
  move_from : Num * Num;
  move_to : Num * Num;
  move_piece : Piece;
  move_captured : option Piece;
  move_timestamp : Z;
  move_player : Color
}.

Definition Board := list (list (option Piece)).

(** The fields of a [Game] object.  [board] holds the cells of the row
    arrays; [stray] holds the other properties that [makeMove] has put on
    a row array, which are pieces stored under a key that is not an index:
    the key [(r, below, digits)] is the property [fraction below digits]
    of row [r].  A property that was never written ([undefined]) and one
    that was cleared ([null]) are both absent from [stray]; the code only
    tests such a value for truth. *)
Record Game := mkGame {
  game_id : string;
  white : Player;
  black : Player;
  board : Board;
  stray : gmap (Z * Z * positive) Piece;
  currentPlayer : Color;
  moves : list Move;
  status : Status;
  whiteTime : Z;
  blackTime : Z;
  lastMoveTime : Z;
  spectators : gset string
}.

(** Field updates ([this.f = v]). *)
Definition set_board (b : Board) (g : Game) : Game :=
  mkGame (game_id g) (white g) (black g) b (stray g)
         (currentPlayer g) (moves g) (status g) (whiteTime g)
         (blackTime g) (lastMoveTime g) (spectators g).
Definition set_stray (m : gmap (Z * Z * positive) Piece) (g : Game) : Game :=
  mkGame (game_id g) (white g) (black g) (board g) m
         (currentPlayer g) (moves g) (status g) (whiteTime g)
         (blackTime g) (lastMoveTime g) (spectators g).
Definition set_currentPlayer (c : Color) (g : Game) : Game :=
  mkGame (game_id g) (white g) (black g) (board g) (stray g)
         c (moves g) (status g) (whiteTime g)
         (blackTime g) (lastMoveTime g) (spectators g).
Definition set_moves (ms : list Move) (g : Game) : Game :=
  mkGame (game_id g) (white g) (black g) (board g) (stray g)
         (currentPlayer g) ms (status g) (whiteTime g)
         (blackTime g) (lastMoveTime g) (spectators g).
Definition set_status (s : Status) (g : Game) : Game :=
  mkGame (game_id g) (white g) (black g) (board g) (stray g)
         (currentPlayer g) (moves g) s (whiteTime g)
         (blackTime g) (lastMoveTime g) (spectators g).
Definition set_whiteTime (t : Z) (g : Game) : Game :=
  mkGame (game_id g) (white g) (black g) (board g) (stray g)
         (currentPlayer g) (moves g) (status g) t
         (blackTime g) (lastMoveTime g) (spectators g).
Definition set_blackTime (t : Z) (g : Game) : Game :=
  mkGame (game_id g) (white g) (black g) (board g) (stray g)
         (currentPlayer g) (moves g) (status g) (whiteTime g)
         t (lastMoveTime g) (spectators g).
Definition set_lastMoveTime (t : Z) (g : Game) : Game :=
  mkGame (game_id g) (white g) (black g) (board g) (stray g)
         (currentPlayer g) (moves g) (status g) (whiteTime g)
         (blackTime g) t (spectators g).
Definition set_spectators (s : gset string) (g : Game) : Game :=
  mkGame (game_id g) (white g) (black g) (board g) (stray g)
         (currentPlayer g) (moves g) (status g) (whiteTime g)
         (blackTime g) (lastMoveTime g) s.

(** ** class Game *)

(** [getInitialBoard()] *)
Definition getInitialBoard : Board :=
  [ [Some BR; Some BN; Some BB; Some BQ; Some BK; Some BB; Some BN; Some BR];
    [Some BP; Some BP; Some BP; Some BP; Some BP; Some BP; Some BP; Some BP];
    [None; None; None; None; None; None; None; None];
    [None; None; None; None; None; None; None; None];
    [None; None; None; None; None; None; None; None];
    [None; None; None; None; None; None; None; None];
    [Some WP; Some WP; Some WP; Some WP; Some WP; Some WP; Some WP; Some WP];
    [Some WR; Some WN; Some WB; Some WQ; Some WK; Some WB; Some WN; Some WR] ].

(** [new Game(id, white, black)]; [now] is the value of [Date.now()]. *)
Definition newGame (id : string) (w b : Player) (now : Z) : Game :=
  {| game_id := id; white := w; black := b;
     board := getInitialBoard;
     stray := ∅;
     currentPlayer := White;
     moves := [];
     status := playing;
     whiteTime := 15 * 60 * 1000;
     blackTime := 15 * 60 * 1000;
     lastMoveTime := now;
     spectators := ∅ |}.

(** [board[r][c]]: the cell content, [None] for [null]. *)
Definition boardAt (b : Board) (r c : Z) : option Piece :=
  match b !! Z.to_nat r with
  | Some row => match row !! Z.to_nat c with
                | Some cell => cell
                | None => None
                end
  | None => None
  end.

(** [board[r][c] = v] *)
Definition boardSet (b : Board) (r c : Z) (v : option Piece) : Board :=
  alter (λ row, <[Z.to_nat c := v]> row) (Z.to_nat r) b.

(** ['♔♕♖♗♘♙'.includes(piece)] and ['♚♛♜♝♞♟'.includes(piece)] *)
Definition isWhitePiece (p : Piece) : bool :=
  bool_decide (p ∈ [WK; WQ; WR; WB; WN; WP]).
Definition isBlackPiece (p : Piece) : bool :=
  bool_decide (p ∈ [BK; BQ; BR; BB; BN; BP]).

Definition isWhite (c : Color) : bool := bool_decide (c = White).
Definition isBlack (c : Color) : bool := bool_decide (c = Black).

(** [this.currentPlayer === 'white' ? 'black' : 'white'] *)
Definition other (c : Color) : Color :=
  if isWhite c then Black else White.

(** How a call of [makeMove] ends: it returns [false] ([returned None]) or
    the recorded move, or it throws a [TypeError]. *)
Inductive Completion :=
| returned (result : option Move)
| threw.

(** The move a call has returned, if it returned one. *)
Definition moveOf (c : Completion) : option Move :=
  match c with
  | returned result => result
  | threw => None
  end.

(** [this.board[row][col]].  [None] is the [TypeError] of reading a
    property of [undefined]: [this.board] has no property at a number that
    is not whole.  Otherwise the value read, [None] for [null] and
    [undefined].  The board keeps its eight rows of eight cells
    ([reachable_session_ok]); on a board without the row the read gives
    [undefined]. *)
Definition readCell (g : Game) (row col : Num) : option (option Piece) :=
  match row with
  | fraction _ _ => None
  | whole r =>
      match col with
      | whole c => Some (boardAt (board g) r c)
      | fraction below digits => Some (stray g !! (r, below, digits))
      end
  end.

(** [this.board[row][col] = v], executed after [this.board[row][col]] has
    been read. *)
Definition writeCell (g : Game) (row col : Num) (v : option Piece) : Game :=
  match row with
  | fraction _ _ => g
  | whole r =>
      match col with
      | whole c => set_board (boardSet (board g) r c v) g
      | fraction below digits =>
          set_stray (match v with
                     | Some piece => <[(r, below, digits) := piece]> (stray g)
                     | None => delete (r, below, digits) (stray g)
                     end) g
      end
  end.

(** [makeMove(fromRow, fromCol, toRow, toCol, playerId)]; [now] is the
    value of [Date.now()].  The method mutates [this]; the second component
    is the object after the call, also when the call throws. *)
Definition makeMove (fromRow fromCol toRow toCol : Num) (playerId : string)
    (now : Z) (g : Game) : Completion * Game :=
  (* Validate turn *)
  let isWhitePlayer := bool_decide (player_id (white g) = playerId) in
  let isBlackPlayer := bool_decide (player_id (black g) = playerId) in
  if negb isWhitePlayer && negb isBlackPlayer then (returned None, g) else
  let expectedPlayer := currentPlayer g in
  if (isWhite expectedPlayer && negb isWhitePlayer)
     || (isBlack expectedPlayer && negb isBlackPlayer)
  then (returned None, g) else
  (* Basic move validation (simplified) *)
  if Num_ltb fromRow 0 || Num_gtb fromRow 7
     || Num_ltb fromCol 0 || Num_gtb fromCol 7
     || Num_ltb toRow 0 || Num_gtb toRow 7
     || Num_ltb toCol 0 || Num_gtb toCol 7
  then (returned None, g) else
  match readCell g fromRow fromCol with
  | None => (threw, g)
  | Some None => (returned None, g)
  | Some (Some piece) =>
    (* Check if piece belongs to current player *)
    if (isWhite (currentPlayer g) && negb (isWhitePiece piece))
       || (isBlack (currentPlayer g) && negb (isBlackPiece piece))
    then (returned None, g) else
    (* Update time *)
    let timeDiff := now - lastMoveTime g in
    let g1 := if isWhite (currentPlayer g)
              then set_whiteTime (whiteTime g - timeDiff) g
              else set_blackTime (blackTime g - timeDiff) g in
    let g2 := set_lastMoveTime now g1 in
    (* Make the move *)
    match readCell g2 toRow toCol with
    | None => (threw, g2)
    | Some capturedPiece =>
      let g3 := writeCell g2 toRow toCol (Some piece) in
      let g4 := writeCell g3 fromRow fromCol None in
      (* Record move *)
      let move := {| move_from := (fromRow, fromCol);
                     move_to := (toRow, toCol);
                     move_piece := piece;
                     move_captured := capturedPiece;
                     move_timestamp := now;
                     move_player := currentPlayer g4 |} in
      let g5 := set_moves (moves g4 ++ [move]) g4 in
      (* Switch players *)
      let g6 := set_currentPlayer (other (currentPlayer g5)) g5 in
      (returned (Some move), g6)
    end
  end.

(** The object returned by [getGameState()], as the recipients get it; the
    two player entries carry [id], [name] and [rating].  The serialisation
    of a row array keeps its cells only. *)
Record GameState := mkGameState {
  gs_id : string;
  gs_board : Board;
  gs_currentPlayer : Color;
  gs_status : Status;
  gs_whiteTime : Z;
  gs_blackTime : Z;
  gs_moves : list Move;
  gs_white : Player;
  gs_black : Player;
  gs_spectators : nat
}.

Definition getGameState (g : Game) : GameState :=
  {| gs_id := game_id g;
     gs_board := board g;
     gs_currentPlayer := currentPlayer g;
     gs_status := status g;
     gs_whiteTime := whiteTime g;
     gs_blackTime := blackTime g;
     gs_moves := moves g;
     gs_white := white g;
     gs_black := black g;
     gs_spectators := size (spectators g) |}.

Example makeMove_e2e4 :
  let g := newGame "g" (mkPlayer "w" "W" 1500) (mkPlayer "b" "B" 1500) 0 in
  let r := makeMove 6 4 4 4 "w" 5000 g in
  (move_piece <$> moveOf r.1) = Some WP
  ∧ currentPlayer r.2 = Black ∧ whiteTime r.2 = 895000
  ∧ blackTime r.2 = 900000 ∧ boardAt (board r.2) 4 4 = Some WP
  ∧ boardAt (board r.2) 6 4 = None.
Proof. vm_compute. repeat split. Qed.

(** ** Outbound events *)

Inductive Recipient :=
| ToSocket (sid : string)      (* socket.emit / player.socket.emit *)
| ToRoom (gameId : string)     (* io.to(gameId).emit *)
| ToAll.                       (* io.emit *)

Inductive Result := black_wins | white_wins | draw_result.

(** The [reason] texts of [gameEnded]: 'Время белых истекло',
    'Время черных истекло', `${player.name} сдался`,
    'Ничья по соглашению', `${disconnectedPlayer.name} отключился`. *)
Inductive Reason :=
| whiteTimeExpired
| blackTimeExpired
| playerResigned (name : string)
| drawByAgreement
| playerLeft (name : string).

(** The [message] texts of [moveError]: 'Игра или игрок не найдены' and
    'Недопустимый ход'. *)
Inductive MoveErrorMessage := gameOrPlayerNotFound | invalidMove.

(** Entry of [gamesList] and payload of [gameCreated]. *)
Record GameSummary := mkGameSummary {
  sum_id : string;
  sum_white : string;
  sum_whiteRating : Z;
  sum_black : string;
  sum_blackRating : Z;
  sum_status : Status;
  sum_spectators : nat
}.

Inductive Payload :=
| registered (playerId playerName : string) (playerRating : Z)
| gamesList (l : list (GameSummary * Color))
| gameFound (gameId : string) (color : Color) (opponentName : string)
            (opponentRating : Z) (gameState : GameState)
| gameCreated (summary : GameSummary)
| waitingForMatch (position estimatedWait : Z)
| moveError (message : MoveErrorMessage)
| moveMade (move : Move) (gameState : GameState)
| gameEnded (result : Result) (reason : Reason) (gameState : GameState)
| spectateError
| spectatingStarted (gameId : string) (gameState : GameState)
| drawOffered (gameId from : string)
| playerDisconnected (playerName : string) (gameState : GameState)
| timeUpdate (wTime bTime : Z).

Inductive Effect :=
| Emit (to : Recipient) (p : Payload)
| Join (sid gameId : string)   (* socket.join(gameId) *)
| Uncaught.                    (* the listener ended with a TypeError *)

(** Some listener of the trace has thrown. *)
Definition crashed (effs : list Effect) : bool :=
  existsb (λ e, match e with Uncaught => true | _ => false end) effs.

(** ** The [Map] of games, in insertion order *)

Section JSMap.
Context {V : Type}.

(** [m.get(k)] *)
Fixpoint Map_get (k : string) (m : list (string * V)) : option V :=
  match m with
  | [] => None
  | (k', v) :: m' => if decide (k' = k) then Some v else Map_get k m'
  end.

(** [m.has(k)] *)
Definition Map_has (k : string) (m : list (string * V)) : bool :=
  match Map_get k m with Some _ => true | None => false end.

(** [m.set(k, v)]: an existing key keeps its place. *)
Fixpoint Map_set (k : string) (v : V) (m : list (string * V))
    : list (string * V) :=
  match m with
  | [] => [(k, v)]
  | (k', v') :: m' =>
      if decide (k' = k) then (k, v) :: m' else (k', v') :: Map_set k v m'
  end.

(** [m.delete(k)] *)
Fixpoint Map_delete (k : string) (m : list (string * V))
    : list (string * V) :=
  match m with
  | [] => []
  | (k', v') :: m' =>
      if decide (k' = k) then Map_delete k m'
      else (k', v') :: Map_delete k m'
  end.
End JSMap.

(** ** Server state *)

(** A pending [setTimeout] of the disconnect handler: the closure captured
    [gameId] and [socket.id]; [timer_delay] is its delay in ms. *)
Record Timer := mkTimer {
  timer_delay : Z;
  timer_gameId : string;
  timer_socketId : string
}.

Record Server := mkServer {
  games : list (string * Game);
  waitingPlayers : list Player;
  players : gmap string Player;
  timers : list Timer
}.

Definition set_games (gs : list (string * Game)) (st : Server) : Server :=
  mkServer gs (waitingPlayers st) (players st) (timers st).
Definition set_waitingPlayers (w : list Player) (st : Server) : Server :=
  mkServer (games st) w (players st) (timers st).
Definition set_players (ps : gmap string Player) (st : Server) : Server :=
  mkServer (games st) (waitingPlayers st) ps (timers st).
Definition set_timers (ts : list Timer) (st : Server) : Server :=
  mkServer (games st) (waitingPlayers st) (players st) ts.

Definition emptyServer : Server := mkServer [] [] ∅ [].

(** ** Session transitions: what each handler does to the [Game] object *)

(** The "Check for game end conditions" block of the [makeMove] handler. *)
Definition checkTimeAfterMove (gameId : string) (game : Game)
    : Game * list Effect :=
  if whiteTime game <=? 0 then
    let game' := set_status time_out game in
    (game', [Emit (ToRoom gameId)
               (gameEnded black_wins whiteTimeExpired (getGameState game'))])
  else if blackTime game <=? 0 then
    let game' := set_status time_out game in
    (game', [Emit (ToRoom gameId)
               (gameEnded white_wins blackTimeExpired (getGameState game'))])
  else (game, []).

(** The [makeMove] handler once [game] and [player] are found; [sid] is
    [socket.id].  The handler does not catch what [game.makeMove] throws. *)
Definition moveSession (sid gameId : string)
    (fromRow fromCol toRow toCol : Num) (now : Z) (game : Game)
    : Game * list Effect :=
  match makeMove fromRow fromCol toRow toCol sid now game with
  | (threw, game1) => (game1, [Uncaught])
  | (returned None, game1) =>
      (game1, [Emit (ToSocket sid) (moveError invalidMove)])
  | (returned (Some move), game1) =>
      let '(game2, ended) := checkTimeAfterMove gameId game1 in
      (game2,
       Emit (ToRoom gameId) (moveMade move (getGameState game1)) :: ended)
  end.

(** The [resign] handler once [game] and [player] are found. *)
Definition resignSession (sid gameId : string) (player : Player) (game : Game)
    : Game * list Effect :=
  let isWhite := bool_decide (player_id (white game) = sid) in
  let isBlack := bool_decide (player_id (black game) = sid) in
  if negb isWhite && negb isBlack then (game, []) else
  let game' := set_status resigned game in
  (game', [Emit (ToRoom gameId)
             (gameEnded (if isWhite then black_wins else white_wins)
                        (playerResigned (player_name player))
                        (getGameState game'))]).

(** The [acceptDraw] handler once [game] is found. *)
Definition drawSession (gameId : string) (game : Game) : Game * list Effect :=
  let game' := set_status draw game in
  (game', [Emit (ToRoom gameId)
             (gameEnded draw_result drawByAgreement (getGameState game'))]).

(** The body of the ticker loop for one entry of [games]. *)
Definition tickSession (gameId : string) (now : Z) (game : Game)
    : Game * list Effect :=
  if bool_decide (status game = playing) then
    let timeDiff := now - lastMoveTime game in
    let g1 := if isWhite (currentPlayer game)
              then set_whiteTime (Z.max 0 (whiteTime game - timeDiff)) game
              else set_blackTime (Z.max 0 (blackTime game - timeDiff)) game in
    let g2 := set_lastMoveTime now g1 in
    (* Check for time out *)
    if (whiteTime g2 <=? 0) || (blackTime g2 <=? 0) then
      let winner := if whiteTime g2 <=? 0 then black_wins else white_wins in
      let reason := if whiteTime g2 <=? 0
                    then whiteTimeExpired else blackTimeExpired in
      let g3 := set_status time_out g2 in
      (g3, [Emit (ToRoom gameId) (gameEnded winner reason (getGameState g3))])
    else
      (g2, [Emit (ToRoom gameId) (timeUpdate (whiteTime g2) (blackTime g2))])
  else (game, []).

(** The deferred callback of the disconnect handler once [games.has(gameId)]
    holds, up to [games.delete(gameId)]. *)
Definition timeoutSession (sid gameId : string) (game : Game)
    : Game * list Effect :=
  let disconnectedPlayer :=
    if bool_decide (player_id (white game) = sid)
    then white game else black game in
  let winner :=
    if bool_decide (player_id (white game) = sid)
    then black_wins else white_wins in
  let game' := set_status disconnected game in
  (game', [Emit (ToRoom gameId)
             (gameEnded winner (playerLeft (player_name disconnectedPlayer))
                        (getGameState game'))]).

(** ** The socket.io handlers *)

(** [l.findIndex(f)], [None] for [-1]; [l.splice(i, 1)] then leaves
    [delete i l] in [l] and returns the removed element. *)
Definition findIndex {A} (f : A → bool) (l : list A) : option nat :=
  fst <$> list_find (λ x, f x = true) l.

(** [s.slice(-4)] *)
Definition slice_last4 (s : string) : string :=
  String.substring (String.length s - 4)%nat 4 s.

Definition summary (game : Game) : GameSummary :=
  {| sum_id := game_id game;
     sum_white := player_name (white game);
     sum_whiteRating := player_rating (white game);
     sum_black := player_name (black game);
     sum_blackRating := player_rating (black game);
     sum_status := status game;
     sum_spectators := size (spectators game) |}.

(** [socket.on('register', playerData)]; a missing or empty name and a
    missing or zero rating are falsy and take the default. *)
Definition register (sid : string) (name : option string) (rating : option Z)
    (st : Server) : Server * list Effect :=
  let player :=
    {| player_id := sid;
       player_name := match name with
                      | Some n => if bool_decide (n = EmptyString) then
                                    "Игрок_" +:+ slice_last4 sid else n
                      | None => "Игрок_" +:+ slice_last4 sid
                      end;
       player_rating := match rating with
                        | Some r => if r =? 0 then 1500 else r
                        | None => 1500
                        end |} in
  (set_players (<[sid := player]> (players st)) st,
   [Emit (ToSocket sid)
      (registered sid (player_name player) (player_rating player));
    Emit (ToSocket sid)
      (gamesList ((λ e, (summary e.2, currentPlayer e.2)) <$> games st))]).

(** Removing the caller's ticket from [waitingPlayers] ([findIndex] by id,
    then [splice]); used by [findMatch] and [disconnect]. *)
Definition removeWaiting (sid : string) (waiting : list Player)
    : list Player :=
  match findIndex (λ p, bool_decide (player_id p = sid)) waiting with
  | Some existingIndex => delete existingIndex waiting
  | None => waiting
  end.

(** [preferences.ratingRange || 200] *)
Definition ratingRangeOf (ratingRange : option Z) : Z :=
  match ratingRange with
  | Some r => if r =? 0 then 200 else r
  | None => 200
  end.

(** The predicate of the second [findIndex] of [findMatch]. *)
Definition inRange (player : Player) (range : Z) (waitingPlayer : Player)
    : bool :=
  Z.abs (player_rating waitingPlayer - player_rating player) <=? range.

(** [socket.on('findMatch', preferences)]; [isPlayerWhite] is the value of
    [Math.random() > 0.5], [gameId] that of [uuidv4()], [now] that of
    [Date.now()] in the [Game] constructor.  [list_find] gives the index
    found by the second [findIndex] together with the element that
    [splice(matchIndex, 1)[0]] returns. *)
Definition findMatch (sid : string) (ratingRange : option Z)
    (isPlayerWhite : bool) (gameId : string) (now : Z) (st : Server)
    : Server * list Effect :=
  match players st !! sid with
  | None => (st, [])
  | Some player =>
    (* Remove from waiting list if already there *)
    let waiting1 := removeWaiting sid (waitingPlayers st) in
    (* Try to find a match *)
    let range := ratingRangeOf ratingRange in
    match list_find (λ wp, inRange player range wp = true) waiting1 with
    | Some (matchIndex, opponent) =>
      let waiting2 := delete matchIndex waiting1 in
      let w := if isPlayerWhite then player else opponent in
      let b := if isPlayerWhite then opponent else player in
      let game := newGame gameId w b now in
      (set_games (Map_set gameId game (games st))
         (set_waitingPlayers waiting2 st),
       [Join (player_id w) gameId;
        Join (player_id b) gameId;
        Emit (ToSocket (player_id w))
          (gameFound gameId White (player_name b) (player_rating b)
                     (getGameState game));
        Emit (ToSocket (player_id b))
          (gameFound gameId Black (player_name w) (player_rating w)
                     (getGameState game));
        Emit ToAll (gameCreated (summary game))])
    | None =>
      let waiting2 := waiting1 ++ [player] in
      (set_waitingPlayers waiting2 st,
       [Emit (ToSocket sid)
          (waitingForMatch (Z.of_nat (length waiting2))
                           (Z.of_nat (length waiting2) * 30))])
    end
  end.

(** [socket.on('makeMove', {gameId, fromRow, fromCol, toRow, toCol})] *)
Definition handleMakeMove (sid gameId : string)
    (fromRow fromCol toRow toCol : Num) (now : Z) (st : Server)
    : Server * list Effect :=
  match Map_get gameId (games st), players st !! sid with
  | Some game, Some player =>
      let '(game', effs) :=
        moveSession sid gameId fromRow fromCol toRow toCol now game in
      (set_games (Map_set gameId game' (games st)) st, effs)
  | _, _ => (st, [Emit (ToSocket sid) (moveError gameOrPlayerNotFound)])
  end.

(** [socket.on('spectateGame', gameId)] *)
Definition spectateGame (sid gameId : string) (st : Server)
    : Server * list Effect :=
  match Map_get gameId (games st) with
  | None => (st, [Emit (ToSocket sid) spectateError])
  | Some game =>
      let game' := set_spectators ({[sid]} ∪ spectators game) game in
      (set_games (Map_set gameId game' (games st)) st,
       [Join sid gameId;
        Emit (ToSocket sid) (spectatingStarted gameId (getGameState game'))])
  end.

(** [socket.on('resign', gameId)] *)
Definition resign (sid gameId : string) (st : Server) : Server * list Effect :=
  match Map_get gameId (games st), players st !! sid with
  | Some game, Some player =>
      let '(game', effs) := resignSession sid gameId player game in
      (set_games (Map_set gameId game' (games st)) st, effs)
  | _, _ => (st, [])
  end.

(** [socket.on('offerDraw', gameId)] *)
Definition offerDraw (sid gameId : string) (st : Server)
    : Server * list Effect :=
  match Map_get gameId (games st), players st !! sid with
  | Some game, Some player =>
      let isWhite := bool_decide (player_id (white game) = sid) in
      let opponent := if isWhite then black game else white game in
      (st, [Emit (ToSocket (player_id opponent))
              (drawOffered gameId (player_name player))])
  | _, _ => (st, [])
  end.

(** [socket.on('acceptDraw', gameId)] *)
Definition acceptDraw (sid gameId : string) (st : Server)
    : Server * list Effect :=
  match Map_get gameId (games st) with
  | None => (st, [])
  | Some game =>
      let '(game', effs) := drawSession gameId game in
      (set_games (Map_set gameId game' (games st)) st, effs)
  end.

(** One iteration of the loop over [games] in the disconnect handler;
    [player] is [players.get(socket.id)]. *)
Definition disconnectEntry (sid : string) (player : option Player)
    (e : string * Game) : (string * Game) * (list Effect * list Timer) :=
  let '(gameId, game) := e in
  let competitor := bool_decide (player_id (white game) = sid)
                    || bool_decide (player_id (black game) = sid) in
  let effs :=
    if competitor then
      match player with
      | Some p => [Emit (ToRoom gameId)
                     (playerDisconnected (player_name p) (getGameState game))]
      | None => []
      end
    else [] in
  let scheduled := if competitor then [mkTimer 30000 gameId sid] else [] in
  ((gameId, set_spectators (spectators game ∖ {[sid]}) game),
   (effs, scheduled)).

(** [socket.on('disconnect')] *)
Definition disconnect (sid : string) (st : Server) : Server * list Effect :=
  let waiting' := removeWaiting sid (waitingPlayers st) in
  let rs := disconnectEntry sid (players st !! sid) <$> games st in
  ({| games := rs.*1;
      waitingPlayers := waiting';
      players := delete sid (players st);
      timers := timers st ++ concat (rs.*2.*2) |},
   concat (rs.*2.*1)).

(** The callback given to [setTimeout] by the disconnect handler. *)
Definition disconnectTimeout (sid gameId : string) (st : Server)
    : Server * list Effect :=
  match Map_get gameId (games st) with
  | Some game =>
      let '(game', effs) := timeoutSession sid gameId game in
      (set_games (Map_delete gameId (Map_set gameId game' (games st))) st,
       effs)
  | None => (st, [])
  end.

(** The [i]-th pending timer fires; when it does is up to the
    environment. *)
Definition fireTimer (i : nat) (st : Server) : Server * list Effect :=
  match timers st !! i with
  | Some t =>
      disconnectTimeout (timer_socketId t) (timer_gameId t)
                        (set_timers (delete i (timers st)) st)
  | None => (st, [])
  end.

(** One pass of the [setInterval] callback (an interval is installed for
    every connection; each firing is one such pass); [nowAt gameId] is the
    value of [Date.now()] read in the iteration for [gameId]. *)
Definition ticker (nowAt : string → Z) (st : Server) : Server * list Effect :=
  let rs := (λ e : string * Game,
               let '(game', effs) := tickSession e.1 (nowAt e.1) e.2 in
               ((e.1, game'), effs)) <$> games st in
  (set_games (rs.*1) st, concat (rs.*2)).

(** Everything that can happen to the server. *)
Inductive Input :=
| in_register (sid : string) (name : option string) (rating : option Z)
| in_findMatch (sid : string) (ratingRange : option Z) (isPlayerWhite : bool)
               (gameId : string) (now : Z)
| in_makeMove (sid gameId : string) (fromRow fromCol toRow toCol : Num)
              (now : Z)
| in_spectateGame (sid gameId : string)
| in_resign (sid gameId : string)
| in_offerDraw (sid gameId : string)
| in_acceptDraw (sid gameId : string)
| in_disconnect (sid : string)
| in_timer (i : nat)
| in_tick (nowAt : string → Z).

Definition step (i : Input) (st : Server) : Server * list Effect :=
  match i with
  | in_register sid name rating => register sid name rating st
  | in_findMatch sid range coin gameId now =>
      findMatch sid range coin gameId now st
  | in_makeMove sid gameId fr fc tr tc now =>
      handleMakeMove sid gameId fr fc tr tc now st
  | in_spectateGame sid gameId => spectateGame sid gameId st
  | in_resign sid gameId => resign sid gameId st
  | in_offerDraw sid gameId => offerDraw sid gameId st
  | in_acceptDraw sid gameId => acceptDraw sid gameId st
  | in_disconnect sid => disconnect sid st
  | in_timer i => fireTimer i st
  | in_tick nowAt => ticker nowAt st
  end.

(** Running a list of inputs, collecting the effects in order. *)
Fixpoint run (ins : list Input) (st : Server) : Server * list Effect :=
  match ins with
  | [] => (st, [])
  | i :: ins' =>
      let '(st1, e1) := step i st in
      let '(st2, e2) := run ins' st1 in
      (st2, e1 ++ e2)
  end.

(** ** Vocabulary of the properties *)

(** The terminal statuses. *)
Definition terminal (s : Status) : Prop :=
  s ∈ [draw; resigned; time_out; disconnected].

(** The competitor whose turn it is. *)
Definition playerToMove (g : Game) : Player :=
  match currentPlayer g with White => white g | Black => black g end.

(** Ownership of a piece. *)
Definition belongsTo (p : Piece) (c : Color) : Prop :=
  match c with
  | White => isWhitePiece p = true
  | Black => isBlackPiece p = true
  end.

Definition inBounds (x : Z) : Prop := 0 ≤ x ≤ 7.

(** The acceptance condition of [Game.makeMove] as the code has it. *)
Definition acceptable (g : Game) (fromRow fromCol toRow toCol : Z)
    (playerId : string) : Prop :=
  inBounds fromRow ∧ inBounds fromCol ∧ inBounds toRow ∧ inBounds toCol
  ∧ (∃ piece, boardAt (board g) fromRow fromCol = Some piece
              ∧ belongsTo piece (currentPlayer g))
  ∧ player_id (playerToMove g) = playerId.

(** The acceptance condition in the specification's words: as above, and
    the destination does not hold a piece of the side to move. *)
Definition acceptable_spec (g : Game) (fromRow fromCol toRow toCol : Z)
    (playerId : string) : Prop :=
  inBounds fromRow ∧ inBounds fromCol ∧ inBounds toRow ∧ inBounds toCol
  ∧ (∃ piece, boardAt (board g) fromRow fromCol = Some piece
              ∧ belongsTo piece (currentPlayer g))
  ∧ (∀ q, boardAt (board g) toRow toCol = Some q
          → ¬ belongsTo q (currentPlayer g))
  ∧ player_id (playerToMove g) = playerId.

(** A coordinate that passes the coordinate test of [makeMove]: a whole
    number in [0,7], or a number between 0 and 7 that is not whole. *)
Definition passesBounds (x : Num) : Prop :=
  match x with
  | whole z => 0 ≤ z ≤ 7
  | fraction below _ => 0 ≤ below < 7
  end.

(** The acceptance condition of [Game.makeMove] on coordinates of any
    kind: the four coordinates pass the coordinate test, the destination
    row is a whole number, the origin holds a piece of the side to move
    (so the origin row is a whole number too) and the requester is the
    competitor to move. *)
Definition accepts (g : Game) (fromRow fromCol toRow toCol : Num)
    (playerId : string) : Prop :=
  passesBounds fromRow ∧ passesBounds fromCol
  ∧ passesBounds toRow ∧ passesBounds toCol
  ∧ (∃ r : Z, toRow = whole r)
  ∧ (∃ piece, readCell g fromRow fromCol = Some (Some piece)
              ∧ belongsTo piece (currentPlayer g))
  ∧ player_id (playerToMove g) = playerId.

(** The object after the "Update time" block of [makeMove]. *)
Definition timeUpdated (now : Z) (g : Game) : Game :=
  set_lastMoveTime now
    (if isWhite (currentPlayer g)
     then set_whiteTime (whiteTime g - (now - lastMoveTime g)) g
     else set_blackTime (blackTime g - (now - lastMoveTime g)) g).

(** Remaining time of a side, the result announced when a side wins and
    the reason announced when a side's time is used up. *)
Definition remaining (c : Color) (g : Game) : Z :=
  match c with White => whiteTime g | Black => blackTime g end.
Definition wins (c : Color) : Result :=
  match c with White => white_wins | Black => black_wins end.
Definition expired (c : Color) : Reason :=
  match c with White => whiteTimeExpired | Black => blackTimeExpired end.

(** The caller is one of the two competitors of the session. *)
Definition competitor (sid : string) (g : Game) : Prop :=
  player_id (white g) = sid ∨ player_id (black g) = sid.

(** What can happen to one registered session, with the data the handler
    has at hand ([player] is the caller's entry in [players]). *)
Inductive SessionOp :=
| op_makeMove (sid : string) (fromRow fromCol toRow toCol : Num) (now : Z)
| op_resign (sid : string) (player : Player)
| op_acceptDraw
| op_spectate (sid : string)
| op_disconnect (sid : string) (player : option Player)
| op_timeout (sid : string)
| op_tick (now : Z).

Definition applyOp (gameId : string) (op : SessionOp) (game : Game)
    : Game * list Effect :=
  match op with
  | op_makeMove sid fr fc tr tc now =>
      moveSession sid gameId fr fc tr tc now game
  | op_resign sid player => resignSession sid gameId player game
  | op_acceptDraw => drawSession gameId game
  | op_spectate sid =>
      let game' := set_spectators ({[sid]} ∪ spectators game) game in
      (game', [Join sid gameId;
               Emit (ToSocket sid)
                 (spectatingStarted gameId (getGameState game'))])
  | op_disconnect sid player =>
      let r := disconnectEntry sid player (gameId, game) in (r.1.2, r.2.1)
  | op_timeout sid => timeoutSession sid gameId game
  | op_tick now => tickSession gameId now game
  end.

(** An operation is an accepted move when it is a [makeMove] request on
    which [Game.makeMove] returns a move. *)
Definition accepted (op : SessionOp) (game : Game) : bool :=
  match op with
  | op_makeMove sid fr fc tr tc now =>
      bool_decide (is_Some (moveOf (makeMove fr fc tr tc sid now game).1))
  | _ => false
  end.

(** Applying operations in order, counting the accepted moves. *)
Fixpoint runOps (gameId : string) (ops : list SessionOp) (game : Game)
    : Game * nat :=
  match ops with
  | [] => (game, 0%nat)
  | op :: ops' =>
      let r := runOps gameId ops' (applyOp gameId op game).1 in
      (r.1, ((if accepted op game then 1 else 0) + r.2)%nat)
  end.

(** States the server can be in: those a run of inputs leads to from the
    empty server without a listener throwing. *)
Definition reachable (st : Server) : Prop :=
  ∃ ins, (run ins emptyServer).1 = st
         ∧ crashed (run ins emptyServer).2 = false.

(** Invariant of the two matchmaking structures: at most one ticket per
    identity in the queue, and every registered player is stored under its
    own socket id. *)
Definition wf_server (st : Server) : Prop :=
  NoDup (player_id <$> waitingPlayers st)
  ∧ ∀ sid p, players st !! sid = Some p → player_id p = sid.

(** A waiting ticket is eligible for [player] within [range]. *)
Definition eligible (player : Player) (range : Z) (ticket : Player) : Prop :=
  Z.abs (player_rating ticket - player_rating player) ≤ range.

(** Two registered players and one session between them, a fixture for the
    examples. *)
Definition alice : Player := mkPlayer "a" "Alice" 1500.
Definition bob : Player := mkPlayer "b" "Bob" 1650.
Definition game0 : Game := newGame "g" alice bob 0.
Definition server0 : Server :=
  {| games := [("g", game0)];
     waitingPlayers := [];
     players := <["a" := alice]> (<["b" := bob]> ∅);
     timers := [] |}.

(** The queue holds Carol (rating 1000) and then Alice (rating 1500) when
    Bob (rating 1650) asks for a match with the default range. *)
Definition queue0 : Server :=
  {| games := [];
     waitingPlayers := [mkPlayer "c" "Carol" 1000; alice];
     players := <["b" := bob]>
                  (<["a" := alice]> (<["c" := mkPlayer "c" "Carol" 1000]> ∅));
     timers := [] |}.

(** ** Further vocabulary *)

(** A board of eight rows of eight cells. *)
Definition wf_board (b : Board) : Prop :=
  length b = 8%nat ∧ Forall (λ row, length row = 8%nat) b.

(** The clock reading an operation uses, if it reads the clock. *)
Definition opTime (op : SessionOp) : option Z :=
  match op with
  | op_makeMove _ _ _ _ _ now => Some now
  | op_tick now => Some now
  | _ => None
  end.

(** What holds of every session in the registry; see
    [reachable_session_ok]. *)
Definition session_ok (gameId : string) (g : Game) : Prop :=
  game_id g = gameId
  ∧ player_id (white g) ≠ player_id (black g)
  ∧ wf_board (board g)
  ∧ status g ≠ check ∧ status g ≠ checkmate
  ∧ (status g = playing → 0 < whiteTime g ∧ 0 < blackTime g).

(** ** The browser client

    The page component ([Index], the second unnamed source file) and the
    functions it calls.  React state variables are the fields of [View];
    an event handler maps the view before the click to the view after it.
    The board is rendered by [board.map] over rows and cells, so clicks
    carry indices of existing cells. *)

Module Client.

(** [isWhitePiece(piece)] and [isBlackPiece(piece)] on [string | null]. *)
Definition isWhitePiece (piece : option Piece) : bool :=
  match piece with
  | Some p => bool_decide (p ∈ [WK; WQ; WR; WB; WN; WP])
  | None => false
  end.
Definition isBlackPiece (piece : option Piece) : bool :=
  match piece with
  | Some p => bool_decide (p ∈ [BK; BQ; BR; BB; BN; BP])
  | None => false
  end.

(** The state variables [board], [selectedSquare], [currentPlayer] and
    [lastMove] of the component. *)
Record View := mkView {
  board : Board;
  selectedSquare : option (Z * Z);
  currentPlayer : Color;
  lastMove : option (Z * Z * Z * Z)
}.

Definition setSelectedSquare (sq : option (Z * Z)) (v : View) : View :=
  mkView (board v) sq (currentPlayer v) (lastMove v).

(** [isValidMove(fromRow, fromCol, toRow, toCol)] *)
Definition isValidMove (v : View) (fromRow fromCol toRow toCol : Z) : bool :=
  let piece := boardAt (board v) fromRow fromCol in
  match piece with
  | None => false
  | Some _ =>
    let isCurrentPlayerPiece :=
      (isWhite (currentPlayer v) && isWhitePiece piece)
      || (isBlack (currentPlayer v) && isBlackPiece piece) in
    if negb isCurrentPlayerPiece then false else
    let targetPiece := boardAt (board v) toRow toCol in
    match targetPiece with
    | Some _ =>
        if (isWhite (currentPlayer v) && isWhitePiece targetPiece)
           || (isBlack (currentPlayer v) && isBlackPiece targetPiece)
        then false else true
    | None => true
    end
  end.

(** A call of [socketMakeMove] (the [makeMove] of the [useSocket] hook)
    with the payload the hook builds for the [makeMove] intent: the id of
    [currentGame] and the four coordinates.  The hook emits it on the
    socket it holds at that moment. *)
Record MoveRequest := mkMoveRequest {
  req_gameId : string;
  req_fromRow : Z;
  req_fromCol : Z;
  req_toRow : Z;
  req_toCol : Z
}.

(** [handleSquareClick(row, col)]; [currentGame] and [playerColor] come
    from the [useSocket] hook. *)
Definition handleSquareClick (currentGame : option GameState)
    (playerColor : option Color) (row col : Z) (v : View)
    : View * list MoveRequest :=
  match currentGame, playerColor with
  | Some game, Some color =>
    (* Online game logic *)
    match selectedSquare v with
    | Some (selectedRow, selectedCol) =>
      if (selectedRow =? row) && (selectedCol =? col) then
        (setSelectedSquare None v, [])
      else if negb (bool_decide (gs_currentPlayer game = color)) then
        (setSelectedSquare None v, [])
      else
        (setSelectedSquare None v,
         [mkMoveRequest (gs_id game) selectedRow selectedCol row col])
    | None =>
      let piece := boardAt (board v) row col in
      let canSelectPiece :=
        match piece with Some _ => true | None => false end
        && ((isWhite color && isWhitePiece piece)
            || (isBlack color && isBlackPiece piece))
        && bool_decide (gs_currentPlayer game = color) in
      if canSelectPiece then (setSelectedSquare (Some (row, col)) v, [])
      else (v, [])
    end
  | _, _ =>
    (* Offline game logic *)
    match selectedSquare v with
    | Some (selectedRow, selectedCol) =>
      if (selectedRow =? row) && (selectedCol =? col) then
        (setSelectedSquare None v, [])
      else if isValidMove v selectedRow selectedCol row col then
        let movingPiece := boardAt (board v) selectedRow selectedCol in
        let newBoard :=
          boardSet (boardSet (board v) row col movingPiece)
                   selectedRow selectedCol None in
        (mkView newBoard None (other (currentPlayer v))
                (Some (selectedRow, selectedCol, row, col)), [])
      else (setSelectedSquare None v, [])
    | None =>
      let piece := boardAt (board v) row col in
      if match piece with Some _ => true | None => false end
         && ((isWhite (currentPlayer v) && isWhitePiece piece)
             || (isBlack (currentPlayer v) && isBlackPiece piece))
      then (setSelectedSquare (Some (row, col)) v, [])
      else (v, [])
    end
  end.

(** [s.padStart(2, '0')] *)
Definition padStart2 (s : string) : string :=
  match String.length s with
  | 0%nat => "00"
  | 1%nat => "0" +:+ s
  | _ => s
  end.

(** [formatTime(milliseconds)] on a whole number of milliseconds:
    [Math.floor] of a quotient is [Z.div], [%] is the truncating
    remainder [Z.rem], and a number is printed in decimal. *)
Definition formatTime (milliseconds : Z) : string :=
  let totalSeconds := milliseconds `div` 1000 in
  let minutes := totalSeconds `div` 60 in
  let seconds := totalSeconds `rem` 60 in
  pretty minutes +:+ ":" +:+ padStart2 (pretty seconds).

End Client.

(** ** Basic facts *)

Section JSMap_facts.
Context {V : Type}.
Implicit Types (m : list (string * V)) (k : string) (v : V).

Lemma Map_get_set_eq k v m : Map_get k (Map_set k v m) = Some v.
Proof.
  induction m as [|[k' v'] m IH]; simpl.
  - by rewrite decide_True.
  - destruct (decide (k' = k)) as [->|Hne]; simpl.
    + by rewrite decide_True.
    + by rewrite decide_False.
Qed.

Lemma Map_get_set_ne k k' v m :
  k ≠ k' → Map_get k' (Map_set k v m) = Map_get k' m.
Proof.
  intros Hne. induction m as [|[k0 v0] m IH]; simpl.
  - by rewrite decide_False.
  - destruct (decide (k0 = k)) as [->|Hne0]; simpl.
    + by rewrite !decide_False.
    + by rewrite IH.
Qed.

Lemma Map_set_get_id k v m : Map_get k m = Some v → Map_set k v m = m.
Proof.
  induction m as [|[k' v'] m IH]; simpl; [done|].
  destruct (decide (k' = k)) as [->|Hne].
  - by intros [= ->].
  - intros H. by rewrite IH.
Qed.

Lemma Map_set_set k v v' m : Map_set k v' (Map_set k v m) = Map_set k v' m.
Proof.
  induction m as [|[k0 v0] m IH]; simpl.
  - by rewrite decide_True.
  - destruct (decide (k0 = k)) as [->|Hne]; simpl.
    + by rewrite decide_True.
    + by rewrite decide_False, IH.
Qed.

Lemma Map_get_delete_eq k m : Map_get k (Map_delete k m) = None.
Proof.
  induction m as [|[k' v'] m IH]; simpl; [done|].
  destruct (decide (k' = k)) as [->|Hne]; simpl; [done|].
  by rewrite decide_False.
Qed.

Lemma Map_get_delete_ne k k' m :
  k ≠ k' → Map_get k' (Map_delete k m) = Map_get k' m.
Proof.
  intros Hne. induction m as [|[k0 v0] m IH]; simpl; [done|].
  destruct (decide (k0 = k)) as [->|Hne0]; simpl.
  - by rewrite decide_False.
  - by rewrite IH.
Qed.

Lemma Map_has_get k m : Map_has k m = true ↔ is_Some (Map_get k m).
Proof.
  unfold Map_has. destruct (Map_get k m); split; intros H; try done.
Qed.
End JSMap_facts.

Lemma other_White : other White = Black.
Proof. reflexivity. Qed.
Lemma other_Black : other Black = White.
Proof. reflexivity. Qed.

(** The coordinate test of [makeMove]. *)
Lemma bounds_test_false (a b c d : Num) :
  Num_ltb a 0 || Num_gtb a 7 || Num_ltb b 0 || Num_gtb b 7
  || Num_ltb c 0 || Num_gtb c 7 || Num_ltb d 0 || Num_gtb d 7 = false
  ↔ passesBounds a ∧ passesBounds b ∧ passesBounds c ∧ passesBounds d.
Proof.
  rewrite !orb_false_iff.
  assert (H : ∀ x, Num_ltb x 0 = false ∧ Num_gtb x 7 = false ↔ passesBounds x).
  { intros [z|z ?]; simpl.
    - rewrite Z.ltb_ge, Z.gtb_ltb, Z.ltb_ge. lia.
    - rewrite Z.ltb_ge, Z.geb_leb, Z.leb_gt. lia. }
  rewrite <- !H. tauto.
Qed.

Lemma passesBounds_whole (z : Z) : passesBounds (whole z) ↔ inBounds z.
Proof. done. Qed.

(** The turn test of [makeMove]: both guards pass exactly when the caller
    is the competitor to move. *)
Lemma turn_test_false (g : Game) (playerId : string) :
  let isWhitePlayer := bool_decide (player_id (white g) = playerId) in
  let isBlackPlayer := bool_decide (player_id (black g) = playerId) in
  (negb isWhitePlayer && negb isBlackPlayer = false
   ∧ (isWhite (currentPlayer g) && negb isWhitePlayer)
     || (isBlack (currentPlayer g) && negb isBlackPlayer) = false)
  ↔ player_id (playerToMove g) = playerId.
Proof.
  unfold playerToMove. simpl.
  destruct (currentPlayer g); simpl;
    destruct (bool_decide (player_id (white g) = playerId)) eqn:Ew;
    destruct (bool_decide (player_id (black g) = playerId)) eqn:Eb;
    simpl;
    try apply bool_decide_eq_true in Ew; try apply bool_decide_eq_false in Ew;
    try apply bool_decide_eq_true in Eb; try apply bool_decide_eq_false in Eb;
    intuition congruence.
Qed.

(** The ownership test of [makeMove]. *)
Lemma owner_test_false (c : Color) (piece : Piece) :
  (isWhite c && negb (isWhitePiece piece))
  || (isBlack c && negb (isBlackPiece piece)) = false
  ↔ belongsTo piece c.
Proof. destruct c, piece; vm_compute; intuition congruence. Qed.

(** The cells and stray properties are those of the object before the
    clocks are updated. *)
Lemma readCell_timeUpdated (now : Z) (g : Game) (row col : Num) :
  readCell (timeUpdated now g) row col = readCell g row col.
Proof.
  unfold timeUpdated, readCell.
  by destruct row, col, (isWhite (currentPlayer g)).
Qed.

(** [makeMove], one outcome after the other: the tests that return
    [false], the two reads that throw, and the accepted move. *)
Lemma makeMove_unfold (g : Game) (fromRow fromCol toRow toCol : Num)
    (playerId : string) (now : Z) :
  makeMove fromRow fromCol toRow toCol playerId now g
  = if negb (bool_decide (player_id (white g) = playerId))
       && negb (bool_decide (player_id (black g) = playerId))
    then (returned None, g) else
    if (isWhite (currentPlayer g)
        && negb (bool_decide (player_id (white g) = playerId)))
       || (isBlack (currentPlayer g)
           && negb (bool_decide (player_id (black g) = playerId)))
    then (returned None, g) else
    if Num_ltb fromRow 0 || Num_gtb fromRow 7
       || Num_ltb fromCol 0 || Num_gtb fromCol 7
       || Num_ltb toRow 0 || Num_gtb toRow 7
       || Num_ltb toCol 0 || Num_gtb toCol 7
    then (returned None, g) else
    match readCell g fromRow fromCol with
    | None => (threw, g)
    | Some None => (returned None, g)
    | Some (Some piece) =>
      if (isWhite (currentPlayer g) && negb (isWhitePiece piece))
         || (isBlack (currentPlayer g) && negb (isBlackPiece piece))
      then (returned None, g) else
      match readCell g toRow toCol with
      | None => (threw, timeUpdated now g)
      | Some capturedPiece =>
        let g4 := writeCell (writeCell (timeUpdated now g) toRow toCol
                                       (Some piece)) fromRow fromCol None in
        let move := {| move_from := (fromRow, fromCol);
                       move_to := (toRow, toCol);
                       move_piece := piece;
                       move_captured := capturedPiece;
                       move_timestamp := now;
                       move_player := currentPlayer g |} in
        (returned (Some move),
         set_currentPlayer (other (currentPlayer g))
           (set_moves (moves g ++ [move]) g4))
      end
    end.
Proof.
  unfold makeMove. fold (timeUpdated now g).
  rewrite readCell_timeUpdated.
  repeat (match goal with
          | |- (if ?b then _ else _) = _ => destruct b; [reflexivity|]
          end).
  destruct (readCell g fromRow fromCol) as [[piece|]|]; try reflexivity.
  match goal with
  | |- (if ?b then _ else _) = _ => destruct b; [reflexivity|]
  end.
  destruct (readCell g toRow toCol) as [capturedPiece|]; [|reflexivity].
  unfold timeUpdated.
  by destruct fromRow, fromCol, toRow, toCol, (isWhite (currentPlayer g)).
Qed.

(** [Game.makeMove] returns a move exactly under [accepts]. *)
Lemma makeMove_accepts (g : Game) (fromRow fromCol toRow toCol : Num)
    (playerId : string) (now : Z) :
  is_Some (moveOf (makeMove fromRow fromCol toRow toCol playerId now g).1)
  ↔ accepts g fromRow fromCol toRow toCol playerId.
Proof.
  pose proof (turn_test_false g playerId) as Ht.
  pose proof (bounds_test_false fromRow fromCol toRow toCol) as Hb.
  rewrite makeMove_unfold. unfold accepts. cbv zeta in Ht.
  destruct (negb (bool_decide (player_id (white g) = playerId))
            && negb (bool_decide (player_id (black g) = playerId))) eqn:E1.
  { split; [by intros [? ?]|]. intros (_ & _ & _ & _ & _ & _ & Hp).
    apply Ht in Hp as [? _]. congruence. }
  destruct ((isWhite (currentPlayer g)
             && negb (bool_decide (player_id (white g) = playerId)))
            || (isBlack (currentPlayer g)
                && negb (bool_decide (player_id (black g) = playerId))))
    eqn:E2.
  { split; [by intros [? ?]|]. intros (_ & _ & _ & _ & _ & _ & Hp).
    apply Ht in Hp as [_ ?]. congruence. }
  destruct (Num_ltb fromRow 0 || Num_gtb fromRow 7
            || Num_ltb fromCol 0 || Num_gtb fromCol 7
            || Num_ltb toRow 0 || Num_gtb toRow 7
            || Num_ltb toCol 0 || Num_gtb toCol 7) eqn:E3.
  { split; [by intros [? ?]|]. intros (? & ? & ? & ? & _).
    assert (Hf : passesBounds fromRow ∧ passesBounds fromCol
                 ∧ passesBounds toRow ∧ passesBounds toCol) by done.
    apply Hb in Hf. congruence. }
  destruct (proj1 Hb eq_refl) as (? & ? & ? & ?).
  destruct (readCell g fromRow fromCol) as [[piece|]|] eqn:E4.
  2:{ split; [by intros [? ?]|].
      by intros (_ & _ & _ & _ & _ & (? & [=] & _) & _). }
  2:{ split; [by intros [? ?]|].
      by intros (_ & _ & _ & _ & _ & (? & [=] & _) & _). }
  destruct ((isWhite (currentPlayer g) && negb (isWhitePiece piece))
            || (isBlack (currentPlayer g) && negb (isBlackPiece piece)))
    eqn:E5.
  { split; [by intros [? ?]|].
    intros (_ & _ & _ & _ & _ & (p & [= <-] & Hp) & _).
    apply owner_test_false in Hp. congruence. }
  destruct (readCell g toRow toCol) as [capturedPiece|] eqn:E6; simpl.
  - split; [|by eauto]. intros _. split_and!; try done.
    + destruct toRow as [r|below digits]; [by exists r|done].
    + exists piece. split; [done|]. by apply owner_test_false.
    + by apply Ht.
  - split; [by intros [? ?]|].
    intros (_ & _ & _ & _ & (r & ->) & _). by destruct toCol.
Qed.

(** On whole coordinates [accepts] is [acceptable]. *)
Lemma accepts_whole (g : Game) (fromRow fromCol toRow toCol : Z)
    (playerId : string) :
  accepts g fromRow fromCol toRow toCol playerId
  ↔ acceptable g fromRow fromCol toRow toCol playerId.
Proof.
  unfold accepts, acceptable, inBounds. simpl. split.
  - intros (? & ? & ? & ? & _ & (piece & [= Hp] & ?) & ?).
    split_and!; try done; try lia. by exists piece.
  - intros (? & ? & ? & ? & (piece & Hp & ?) & ?).
    split_and!; try done; try lia; [by exists toRow|].
    exists piece. by rewrite Hp.
Qed.

(** On whole coordinates [Game.makeMove] returns a move exactly under
    [acceptable]. *)
Lemma makeMove_is_Some (g : Game) (fromRow fromCol toRow toCol : Z)
    (playerId : string) (now : Z) :
  is_Some (moveOf (makeMove fromRow fromCol toRow toCol playerId now g).1)
  ↔ acceptable g fromRow fromCol toRow toCol playerId.
Proof. by rewrite makeMove_accepts, accepts_whole. Qed.

(** On whole coordinates [Game.makeMove] does not throw. *)
Lemma makeMove_whole_returns (g : Game) (fromRow fromCol toRow toCol : Z)
    (playerId : string) (now : Z) :
  (makeMove fromRow fromCol toRow toCol playerId now g).1 ≠ threw.
Proof.
  rewrite makeMove_unfold. simpl.
  repeat (match goal with
          | |- context [if ?b then _ else _] => destruct b; [done|]
          end).
  destruct (boardAt (board g) fromRow fromCol) as [piece|]; [|done].
  by match goal with
     | |- context [if ?b then _ else _] => destruct b
     end.
Qed.

(** A [Game.makeMove] that returns [false] leaves the object as it was. *)
Lemma makeMove_None (g : Game) (fromRow fromCol toRow toCol : Num)
    (playerId : string) (now : Z) :
  (makeMove fromRow fromCol toRow toCol playerId now g).1 = returned None →
  (makeMove fromRow fromCol toRow toCol playerId now g).2 = g.
Proof.
  rewrite makeMove_unfold.
  repeat (match goal with
          | |- context [if ?b then _ else _] => destruct b; [done|]
          end).
  destruct (readCell g fromRow fromCol) as [[piece|]|]; try done.
  match goal with
  | |- context [if ?b then _ else _] => destruct b; [done|]
  end.
  by destruct (readCell g toRow toCol).
Qed.

(** A [Game.makeMove] that throws has left the object as it was, or with
    the clocks updated and nothing else changed; the second happens when
    the request passes every test and the destination row is not whole. *)
Lemma makeMove_threw (g : Game) (fromRow fromCol toRow toCol : Num)
    (playerId : string) (now : Z) :
  (makeMove fromRow fromCol toRow toCol playerId now g).1 = threw →
  player_id (playerToMove g) = playerId
  ∧ passesBounds fromRow ∧ passesBounds fromCol
  ∧ passesBounds toRow ∧ passesBounds toCol
  ∧ (((∃ below digits, fromRow = fraction below digits)
      ∧ (makeMove fromRow fromCol toRow toCol playerId now g).2 = g)
     ∨ ((∃ piece, readCell g fromRow fromCol = Some (Some piece)
                  ∧ belongsTo piece (currentPlayer g))
        ∧ (∃ below digits, toRow = fraction below digits)
        ∧ (makeMove fromRow fromCol toRow toCol playerId now g).2
          = timeUpdated now g)).
Proof.
  pose proof (turn_test_false g playerId) as Ht.
  pose proof (bounds_test_false fromRow fromCol toRow toCol) as Hb.
  rewrite makeMove_unfold. cbv zeta in Ht.
  destruct (negb (bool_decide (player_id (white g) = playerId))
            && negb (bool_decide (player_id (black g) = playerId))) eqn:E1;
    [done|].
  destruct ((isWhite (currentPlayer g)
             && negb (bool_decide (player_id (white g) = playerId)))
            || (isBlack (currentPlayer g)
                && negb (bool_decide (player_id (black g) = playerId))))
    eqn:E2; [done|].
  destruct (Num_ltb fromRow 0 || Num_gtb fromRow 7
            || Num_ltb fromCol 0 || Num_gtb fromCol 7
            || Num_ltb toRow 0 || Num_gtb toRow 7
            || Num_ltb toCol 0 || Num_gtb toCol 7) eqn:E3; [done|].
  destruct (proj1 Hb eq_refl) as (? & ? & ? & ?).
  assert (player_id (playerToMove g) = playerId) by by apply Ht.
  destruct (readCell g fromRow fromCol) as [[piece|]|] eqn:E4; [|done|].
  - destruct ((isWhite (currentPlayer g) && negb (isWhitePiece piece))
              || (isBlack (currentPlayer g) && negb (isBlackPiece piece)))
      eqn:E5; [done|].
    destruct (readCell g toRow toCol) as [capturedPiece|] eqn:E6; [done|].
    intros _. split_and!; try done. right. split_and!.
    + exists piece. split; [done|]. by apply owner_test_false.
    + destruct toRow as [r|below digits]; [by destruct toCol|by eauto].
    + done.
  - intros _. split_and!; try done. left. split; [|done].
    destruct fromRow as [r|below digits]; [by destruct fromCol|by eauto].
Qed.

(** Whatever the outcome, [Game.makeMove] keeps the identity, the two
    competitors, the status and the spectators, and moves the clocks
    nowhere but down by the elapsed time of the side to move. *)
Lemma makeMove_frame (g : Game) (fromRow fromCol toRow toCol : Num)
    (playerId : string) (now : Z) :
  let g' := (makeMove fromRow fromCol toRow toCol playerId now g).2 in
  game_id g' = game_id g ∧ white g' = white g ∧ black g' = black g
  ∧ status g' = status g ∧ spectators g' = spectators g.
Proof.
  rewrite makeMove_unfold.
  repeat (match goal with
          | |- context [if ?b then _ else _] => destruct b; [done|]
          end).
  destruct (readCell g fromRow fromCol) as [[piece|]|]; try done.
  match goal with
  | |- context [if ?b then _ else _] => destruct b; [done|]
  end.
  unfold timeUpdated.
  destruct (readCell g toRow toCol); simpl;
    by destruct fromRow, fromCol, toRow, toCol, (isWhite (currentPlayer g)).
Qed.

(** What an accepted [Game.makeMove] does to each field. *)
Lemma makeMove_Some (g g' : Game) (fromRow fromCol toRow toCol : Num)
    (playerId : string) (now : Z) (m : Move) :
  makeMove fromRow fromCol toRow toCol playerId now g
  = (returned (Some m), g') →
  currentPlayer g' = other (currentPlayer g)
  ∧ status g' = status g
  ∧ moves g' = moves g ++ [m]
  ∧ lastMoveTime g' = now
  ∧ whiteTime g' = (if isWhite (currentPlayer g)
                    then whiteTime g - (now - lastMoveTime g)
                    else whiteTime g)
  ∧ blackTime g' = (if isWhite (currentPlayer g)
                    then blackTime g
                    else blackTime g - (now - lastMoveTime g))
  ∧ white g' = white g ∧ black g' = black g
  ∧ ∃ piece,
      readCell g fromRow fromCol = Some (Some piece)
      ∧ readCell g toRow toCol = Some (move_captured m)
      ∧ m = {| move_from := (fromRow, fromCol); move_to := (toRow, toCol);
               move_piece := piece; move_captured := move_captured m;
               move_timestamp := now; move_player := currentPlayer g |}
      ∧ board g'
        = board (writeCell (writeCell g toRow toCol (Some piece))
                           fromRow fromCol None)
      ∧ stray g'
        = stray (writeCell (writeCell g toRow toCol (Some piece))
                           fromRow fromCol None).
Proof.
  rewrite makeMove_unfold.
  repeat (match goal with
          | |- context [if ?b then (returned None, _) else _] =>
              destruct b; [by intros [=]|]
          end).
  destruct (readCell g fromRow fromCol) as [[piece|]|] eqn:E4;
    [|by intros [=]|by intros [=]].
  match goal with
  | |- context [if ?b then (returned None, _) else _] =>
      destruct b; [by intros [=]|]
  end.
  destruct (readCell g toRow toCol) as [capturedPiece|] eqn:E6;
    [|by intros [=]].
  intros [= <- <-]. unfold timeUpdated.
  split_and!;
    try (by destruct fromRow, fromCol, toRow, toCol,
              (isWhite (currentPlayer g))).
  exists piece. split_and!; try done;
    by destruct fromRow, fromCol, toRow, toCol, (isWhite (currentPlayer g)).
Qed.

(** The same on whole coordinates, where the move touches cells only. *)
Lemma makeMove_Some_whole (g g' : Game) (fromRow fromCol toRow toCol : Z)
    (playerId : string) (now : Z) (m : Move) :
  makeMove fromRow fromCol toRow toCol playerId now g
  = (returned (Some m), g') →
  board g' = boardSet (boardSet (board g) toRow toCol
                                (boardAt (board g) fromRow fromCol))
                      fromRow fromCol None
  ∧ stray g' = stray g
  ∧ boardAt (board g) fromRow fromCol = Some (move_piece m)
  ∧ move_captured m = boardAt (board g) toRow toCol
  ∧ move_from m = (whole fromRow, whole fromCol)
  ∧ move_to m = (whole toRow, whole toCol).
Proof.
  intros H.
  apply makeMove_Some in H
    as (_ & _ & _ & _ & _ & _ & _ & _ & piece & Hr & Hc & Hm & Hb & Hs).
  simpl in Hr, Hc, Hb, Hs. injection Hr as Hr. injection Hc as Hc.
  destruct m as [mf mt mp mc mts mpl]. simpl in *.
  injection Hm as -> -> -> _ _. by rewrite Hr, Hc.
Qed.

Lemma makeMove_status (g : Game) (fromRow fromCol toRow toCol : Num)
    (playerId : string) (now : Z) :
  status (makeMove fromRow fromCol toRow toCol playerId now g).2 = status g.
Proof. apply makeMove_frame. Qed.

(** A [Game.makeMove] that throws keeps the side to move, the log, the
    cells and the stray properties. *)
Lemma makeMove_threw_fields (g : Game) (fromRow fromCol toRow toCol : Num)
    (playerId : string) (now : Z) :
  (makeMove fromRow fromCol toRow toCol playerId now g).1 = threw →
  let g' := (makeMove fromRow fromCol toRow toCol playerId now g).2 in
  currentPlayer g' = currentPlayer g ∧ moves g' = moves g
  ∧ board g' = board g ∧ stray g' = stray g
  ∧ (g' = g ∨ g' = timeUpdated now g).
Proof.
  intros H. apply makeMove_threw in H as (_ & _ & _ & _ & _ & H).
  cbv zeta. unfold timeUpdated in *.
  destruct H as [[_ ->]|(_ & _ & ->)]; [by eauto 10|].
  destruct (isWhite (currentPlayer g)); simpl; by eauto 10.
Qed.

Lemma checkTimeAfterMove_fields (gameId : string) (g : Game) :
  let g' := (checkTimeAfterMove gameId g).1 in
  currentPlayer g' = currentPlayer g ∧ moves g' = moves g
  ∧ board g' = board g ∧ whiteTime g' = whiteTime g
  ∧ blackTime g' = blackTime g ∧ lastMoveTime g' = lastMoveTime g
  ∧ (status g' = status g ∨ status g' = time_out).
Proof.
  unfold checkTimeAfterMove.
  destruct (whiteTime g <=? 0); [simpl; by eauto 10|].
  destruct (blackTime g <=? 0); simpl; by eauto 10.
Qed.

(** A terminal status stays terminal when the status is kept or replaced by
    one of the four values the handlers assign. *)
Lemma terminal_elim (s : Status) :
  terminal s ↔ s = draw ∨ s = resigned ∨ s = time_out ∨ s = disconnected.
Proof. unfold terminal. rewrite !elem_of_cons, elem_of_nil. tauto. Qed.

Lemma terminal_not_playing (s : Status) : terminal s → s ≠ playing.
Proof. rewrite terminal_elim. intros [->|[->|[->| ->]]]; discriminate. Qed.

(** The side to move after one operation. *)
Lemma applyOp_currentPlayer (gameId : string) (op : SessionOp) (g : Game) :
  currentPlayer (applyOp gameId op g).1
  = if accepted op g then other (currentPlayer g) else currentPlayer g.
Proof.
  destruct op as [sid fr fc tr tc now|sid player| |sid|sid player|sid|now];
    simpl.
  - unfold moveSession.
    destruct (makeMove fr fc tr tc sid now g) as [[[m|]|] g'] eqn:E; simpl.
    + pose proof (checkTimeAfterMove_fields gameId g') as (Hc & _).
      destruct (checkTimeAfterMove gameId g') as [g2 ended]; simpl in *.
      rewrite Hc. by apply makeMove_Some in E as (-> & _).
    + pose proof (makeMove_None g fr fc tr tc sid now) as H.
      rewrite E in H. simpl in H. by rewrite H.
    + pose proof (makeMove_threw_fields g fr fc tr tc sid now) as H.
      rewrite E in H. simpl in H. by destruct (H eq_refl) as (-> & _).
  - unfold resignSession. by destruct (negb _ && negb _).
  - done.
  - done.
  - done.
  - done.
  - unfold tickSession. case_bool_decide; [|done].
    destruct (isWhite (currentPlayer g)) eqn:Ew; simpl;
      by destruct (_ || _).
Qed.

(** The move log grows by one on an accepted move and is otherwise kept. *)
Lemma applyOp_moves_length (gameId : string) (op : SessionOp) (g : Game) :
  length (moves (applyOp gameId op g).1)
  = ((if accepted op g then 1 else 0) + length (moves g))%nat.
Proof.
  destruct op as [sid fr fc tr tc now|sid player| |sid|sid player|sid|now];
    simpl.
  - unfold moveSession.
    destruct (makeMove fr fc tr tc sid now g) as [[[m|]|] g'] eqn:E; simpl.
    + pose proof (checkTimeAfterMove_fields gameId g') as (_ & Hm & _).
      destruct (checkTimeAfterMove gameId g') as [g2 ended]; simpl in *.
      rewrite Hm. apply makeMove_Some in E as (_ & _ & -> & _).
      rewrite length_app. simpl. lia.
    + pose proof (makeMove_None g fr fc tr tc sid now) as H.
      rewrite E in H. simpl in H. by rewrite H.
    + pose proof (makeMove_threw_fields g fr fc tr tc sid now) as H.
      rewrite E in H. simpl in H.
      by destruct (H eq_refl) as (_ & -> & _).
  - unfold resignSession. by destruct (negb _ && negb _).
  - done.
  - done.
  - done.
  - done.
  - unfold tickSession. case_bool_decide; [|done].
    destruct (isWhite (currentPlayer g)) eqn:Ew; simpl;
      by destruct (_ || _).
Qed.

Lemma runOps_currentPlayer (gameId : string) (ops : list SessionOp)
    (g : Game) :
  currentPlayer (runOps gameId ops g).1
  = if Nat.even (runOps gameId ops g).2
    then currentPlayer g else other (currentPlayer g).
Proof.
  revert g. induction ops as [|op ops IH]; intros g; [done|].
  cbn [runOps fst snd]. rewrite IH, applyOp_currentPlayer.
  generalize (runOps gameId ops (applyOp gameId op g).1).2. intros n.
  destruct (accepted op g); [|done].
  change (1 + n)%nat with (S n).
  rewrite Nat.even_succ, <- Nat.negb_even.
  by destruct (Nat.even n), (currentPlayer g).
Qed.

Lemma runOps_moves_length (gameId : string) (ops : list SessionOp)
    (g : Game) :
  length (moves (runOps gameId ops g).1)
  = ((runOps gameId ops g).2 + length (moves g))%nat.
Proof.
  revert g. induction ops as [|op ops IH]; intros g; [done|].
  cbn [runOps fst snd]. rewrite IH, applyOp_moves_length. lia.
Qed.

Lemma crashed_app (e1 e2 : list Effect) :
  crashed (e1 ++ e2) = false ↔ crashed e1 = false ∧ crashed e2 = false.
Proof. unfold crashed. by rewrite existsb_app, orb_false_iff. Qed.

(** Running two lists of inputs one after the other. *)
Lemma run_app (ins1 ins2 : list Input) (st : Server) :
  run (ins1 ++ ins2) st
  = ((run ins2 (run ins1 st).1).1,
     (run ins1 st).2 ++ (run ins2 (run ins1 st).1).2).
Proof.
  revert st. induction ins1 as [|i ins1 IH]; intros st; simpl.
  - by destruct (run ins2 st).
  - destruct (step i st) as [st1 e1]. rewrite IH.
    destruct (run ins1 st1) as [st2 e2]. simpl.
    by rewrite app_assoc.
Qed.

(** A step that does not throw leads from a state the server reaches to a
    state the server reaches. *)
Lemma reachable_step (i : Input) (st : Server) :
  reachable st → crashed (step i st).2 = false → reachable (step i st).1.
Proof.
  intros (ins & <- & Hc) Hs. exists (ins ++ [i]). rewrite run_app. simpl.
  destruct (step i (run ins emptyServer).1) as [st1 e1]. simpl in *.
  split; [done|]. apply crashed_app. split; [done|]. by rewrite app_nil_r.
Qed.

(** The fixture is a state the server reaches: both players register, the
    first waits, the second is matched with it. *)
Example server0_reachable : reachable server0.
Proof.
  exists [in_register "a" (Some "Alice") (Some 1500);
          in_register "b" (Some "Bob") (Some 1650);
          in_findMatch "a" None true "x" 0;
          in_findMatch "b" None false "g" 0].
  vm_compute. split; reflexivity.
Qed.

(** ** Move acceptance *)

(** C2, as the code has it, for requests whose four coordinates are whole
    numbers.  On such a request [Game.makeMove] returns (it does not
    throw), and it returns a move if and only if the four coordinates are
    in [0,7], the origin square holds a piece of the side to move and the
    requester is the competitor to move; the content of the destination
    square is not examined. *)
Theorem makeMove_accepted_iff (g : Game) (fromRow fromCol toRow toCol : Z)
    (playerId : string) (now : Z) :
  (makeMove fromRow fromCol toRow toCol playerId now g).1 ≠ threw
  ∧ (is_Some (moveOf (makeMove fromRow fromCol toRow toCol playerId now g).1)
     ↔ acceptable g fromRow fromCol toRow toCol playerId).
Proof. split; [apply makeMove_whole_returns|apply makeMove_is_Some]. Qed.

Lemma makeMove_accepted_iff_witness :
  acceptable game0 6 4 4 4 "a"
  ∧ is_Some (moveOf (makeMove 6 4 4 4 "a" 1000 game0).1).
Proof.
  assert (Ha : acceptable game0 6 4 4 4 "a").
  { unfold acceptable, inBounds. split_and!; try lia.
    - exists WP. split; reflexivity.
    - reflexivity. }
  split; [exact Ha|].
  exact (proj2 (proj2 (makeMove_accepted_iff game0 6 4 4 4 "a" 1000)) Ha).
Defined.

(** C2 as stated fails: on the initial board white's rook a1 may capture
    white's own pawn a2, although the destination holds a piece of the
    side to move. *)
Lemma makeMove_captures_own_piece :
  ¬ (is_Some (moveOf (makeMove 7 0 6 0 "a" 1000 game0).1)
     ↔ acceptable_spec game0 7 0 6 0 "a").
Proof.
  intros [H _].
  assert (Ha : is_Some (moveOf (makeMove 7 0 6 0 "a" 1000 game0).1))
    by (vm_compute; eauto).
  destruct (H Ha) as (_ & _ & _ & _ & _ & Hd & _).
  apply (Hd WP); reflexivity.
Qed.

(** Requests with a coordinate that is not whole, on the initial board.
    An origin row 6.5 passes the coordinate test and the read of the
    origin throws before anything is written.  An origin column 4.5 names
    no property of the row, so the call returns [false].  A destination
    column 4.5 is accepted: the pawn leaves the cells for the property 4.5
    of row 4 and the turn passes. *)
Example makeMove_half_coordinates :
  makeMove (fraction 6 1) 4 4 4 "a" 1000 game0 = (threw, game0)
  ∧ makeMove 6 (fraction 4 1) 4 4 "a" 1000 game0 = (returned None, game0)
  ∧ (let r := makeMove 6 4 4 (fraction 4 1) "a" 1000 game0 in
     is_Some (moveOf r.1)
     ∧ boardAt (board r.2) 6 4 = None
     ∧ boardAt (board r.2) 4 4 = None
     ∧ boardAt (board r.2) 4 5 = None
     ∧ stray r.2 !! (4, 4, 1%positive) = Some WP
     ∧ currentPlayer r.2 = Black).
Proof.
  split; [reflexivity|]. split; [reflexivity|].
  cbv zeta. split_and!; try reflexivity.
  vm_compute. eauto.
Qed.

(** ** Clocks *)

(** The checkpoint of a ticker pass: the side to move is debited the
    elapsed time, floored at zero; the other side keeps its time. *)
Lemma tickSession_checkpoint (gameId : string) (now : Z) (g : Game) :
  status g = playing →
  let g' := (tickSession gameId now g).1 in
  lastMoveTime g' = now
  ∧ remaining (currentPlayer g) g'
    = Z.max 0 (remaining (currentPlayer g) g - (now - lastMoveTime g))
  ∧ remaining (other (currentPlayer g)) g'
    = remaining (other (currentPlayer g)) g
  ∧ 0 ≤ remaining (currentPlayer g) g'.
Proof.
  intros Hp. unfold tickSession. rewrite bool_decide_eq_true_2 by done.
  destruct (currentPlayer g); simpl;
    destruct (_ || _); simpl; split_and!; try done; lia.
Qed.

(** The checkpoint of an accepted move: the mover is debited the elapsed
    time, without a floor; the other side keeps its time. *)
Lemma makeMove_checkpoint (g g' : Game) (fromRow fromCol toRow toCol : Num)
    (playerId : string) (now : Z) (m : Move) :
  makeMove fromRow fromCol toRow toCol playerId now g
  = (returned (Some m), g') →
  lastMoveTime g' = now
  ∧ remaining (currentPlayer g) g'
    = remaining (currentPlayer g) g - (now - lastMoveTime g)
  ∧ remaining (other (currentPlayer g)) g'
    = remaining (other (currentPlayer g)) g.
Proof.
  intros H. apply makeMove_Some in H as (_ & _ & _ & Hl & Hw & Hb & _).
  split; [done|]. by destruct (currentPlayer g); simpl in *.
Qed.

(** C5 at its failing input. White's first move arrives 1 000 000 ms after
    the session started with 900 000 ms on each clock: the move is accepted
    and white's remaining time becomes -100 000, below zero, while the
    ticker at the same instant would leave 0. Black's time is unchanged in
    both. *)
Theorem makeMove_clock_below_zero :
  let r := makeMove 6 4 4 4 "a" 1000000 game0 in
  let t := tickSession "g" 1000000 game0 in
  is_Some (moveOf r.1)
  ∧ whiteTime r.2 = -100000 ∧ blackTime r.2 = 900000
  ∧ whiteTime t.1 = 0 ∧ blackTime t.1 = 900000.
Proof. vm_compute. split_and!; eauto. Qed.

(** ** Time forfeit *)

Lemma ticker_lookup (nowAt : string → Z) (st : Server) (gameId : string)
    (g : Game) :
  Map_get gameId (games st) = Some g →
  Map_get gameId (games (ticker nowAt st).1)
  = Some (tickSession gameId (nowAt gameId) g).1
  ∧ ∀ e, e ∈ (tickSession gameId (nowAt gameId) g).2
         → e ∈ (ticker nowAt st).2.
Proof.
  unfold ticker. simpl. generalize (games st) as m.
  induction m as [|[k v] m IH]; simpl; [done|].
  destruct (tickSession k (nowAt k) v) as [v' effs] eqn:E. simpl.
  destruct (decide (k = gameId)) as [->|Hne].
  - intros [= ->]. rewrite E. simpl. split; [done|].
    intros e He. apply elem_of_app. by left.
  - intros Hg. destruct (IH Hg) as [H1 H2]. split; [done|].
    intros e He. apply elem_of_app. right. by apply H2.
Qed.

(** Outcome of the ticker's check on one playing session. *)
Lemma tickSession_outcome (gameId : string) (now : Z) (g : Game) :
  status g = playing →
  let g' := (tickSession gameId now g).1 in
  let effs := (tickSession gameId now g).2 in
  (remaining White g' ≤ 0 ∨ remaining Black g' ≤ 0 →
     status g' = time_out
     ∧ ∃ loser, remaining loser g' ≤ 0
         ∧ effs = [Emit (ToRoom gameId)
                     (gameEnded (wins (other loser)) (expired loser)
                                (getGameState g'))])
  ∧ (0 < remaining White g' ∧ 0 < remaining Black g' →
     status g' = playing
     ∧ effs = [Emit (ToRoom gameId)
                 (timeUpdate (whiteTime g') (blackTime g'))]).
Proof.
  intros Hp. unfold tickSession. rewrite bool_decide_eq_true_2 by done.
  remember (set_lastMoveTime now _) as g2 eqn:Hg2.
  destruct (whiteTime g2 <=? 0) eqn:Ew; simpl.
  - apply Z.leb_le in Ew. split.
    + intros _. split; [done|]. by exists White.
    + simpl. lia.
  - apply Z.leb_gt in Ew.
    destruct (blackTime g2 <=? 0) eqn:Eb; simpl.
    + apply Z.leb_le in Eb. split.
      * intros _. split; [done|]. by exists Black.
      * simpl. lia.
    + apply Z.leb_gt in Eb. split.
      * simpl. lia.
      * intros _. split; [|done].
        subst g2. by destruct (isWhite (currentPlayer g)).
Qed.

(** Outcome of the end-of-game check that follows an accepted move. *)
Lemma checkTimeAfterMove_outcome (gameId : string) (g : Game) :
  let g' := (checkTimeAfterMove gameId g).1 in
  let effs := (checkTimeAfterMove gameId g).2 in
  (remaining White g' ≤ 0 ∨ remaining Black g' ≤ 0 →
     status g' = time_out
     ∧ ∃ loser, remaining loser g' ≤ 0
         ∧ effs = [Emit (ToRoom gameId)
                     (gameEnded (wins (other loser)) (expired loser)
                                (getGameState g'))])
  ∧ (0 < remaining White g' ∧ 0 < remaining Black g' →
     status g' = status g ∧ effs = []).
Proof.
  unfold checkTimeAfterMove.
  destruct (whiteTime g <=? 0) eqn:Ew; simpl.
  - apply Z.leb_le in Ew. split.
    + intros _. split; [done|]. by exists White.
    + simpl. lia.
  - apply Z.leb_gt in Ew.
    destruct (blackTime g <=? 0) eqn:Eb; simpl.
    + apply Z.leb_le in Eb. split.
      * intros _. split; [done|]. by exists Black.
      * simpl. lia.
    + apply Z.leb_gt in Eb. split; [simpl; lia|done].
Qed.

(** C6. For a registered session that is [playing]: on a ticker pass, if
    after the checkpoint a side's remaining time is at or below zero the
    status becomes [time_out] and [gameEnded] with the other side as winner
    is broadcast to the session room, otherwise the status stays [playing]
    and [timeUpdate] with both remaining times is broadcast to the room;
    after an accepted move the same check ends the session in the same
    way. *)
Theorem time_forfeit (st : Server) (gameId : string) (g : Game) :
  Map_get gameId (games st) = Some g →
  status g = playing →
  (∀ nowAt, ∃ g',
     Map_get gameId (games (ticker nowAt st).1) = Some g'
     ∧ (remaining White g' ≤ 0 ∨ remaining Black g' ≤ 0 →
          status g' = time_out
          ∧ ∃ loser, remaining loser g' ≤ 0
              ∧ Emit (ToRoom gameId)
                  (gameEnded (wins (other loser)) (expired loser)
                             (getGameState g'))
                ∈ (ticker nowAt st).2)
     ∧ (0 < remaining White g' ∧ 0 < remaining Black g' →
          status g' = playing
          ∧ Emit (ToRoom gameId) (timeUpdate (whiteTime g') (blackTime g'))
            ∈ (ticker nowAt st).2))
  ∧ (∀ sid player fromRow fromCol toRow toCol now,
       players st !! sid = Some player →
       is_Some (moveOf (makeMove fromRow fromCol toRow toCol sid now g).1) →
       let r := handleMakeMove sid gameId fromRow fromCol toRow toCol now st in
       ∃ g',
         Map_get gameId (games r.1) = Some g'
         ∧ (remaining White g' ≤ 0 ∨ remaining Black g' ≤ 0 →
              status g' = time_out
              ∧ ∃ loser, remaining loser g' ≤ 0
                  ∧ Emit (ToRoom gameId)
                      (gameEnded (wins (other loser)) (expired loser)
                                 (getGameState g'))
                    ∈ r.2)
         ∧ (0 < remaining White g' ∧ 0 < remaining Black g' →
              status g' = playing)).
Proof.
  intros Hg Hp. split.
  - intros nowAt.
    destruct (ticker_lookup nowAt st gameId g Hg) as [Hl He].
    pose proof (tickSession_outcome gameId (nowAt gameId) g Hp) as [Ho1 Ho2].
    simpl in Ho1, Ho2. eexists. split; [exact Hl|]. split.
    + intros Hz. destruct (Ho1 Hz) as (Hs & loser & Hr & Heq).
      split; [done|]. exists loser. split; [done|].
      apply He. rewrite Heq. apply list_elem_of_singleton. done.
    + intros Hz. destruct (Ho2 Hz) as (Hs & Heq). split; [done|].
      apply He. rewrite Heq. apply list_elem_of_singleton. done.
  - intros sid player fr fc tr tc now Hpl [m Hm]. simpl.
    unfold handleMakeMove, moveSession. rewrite Hg, Hpl.
    destruct (makeMove fr fc tr tc sid now g) as [[[m'|]|] g1] eqn:E;
      simpl in Hm; try discriminate.
    pose proof (checkTimeAfterMove_outcome gameId g1) as [Ho1 Ho2].
    destruct (checkTimeAfterMove gameId g1) as [g2 ended] eqn:Ec.
    simpl in *. rewrite Map_get_set_eq.
    exists g2. split; [done|]. split.
    + intros Hz. destruct (Ho1 Hz) as (Hs & loser & Hr & Heq).
      split; [done|]. exists loser. split; [done|].
      rewrite Heq. apply elem_of_cons. right.
      by apply list_elem_of_singleton.
    + intros Hz. destruct (Ho2 Hz) as (Hs & _).
      rewrite Hs. by apply makeMove_Some in E as (_ & -> & _).
Qed.

Lemma time_forfeit_witness :
  Map_get "g" (games server0) = Some game0
  ∧ status game0 = playing
  ∧ (∀ nowAt, ∃ g',
       Map_get "g" (games (ticker nowAt server0).1) = Some g'
       ∧ (remaining White g' ≤ 0 ∨ remaining Black g' ≤ 0 →
            status g' = time_out
            ∧ ∃ loser, remaining loser g' ≤ 0
                ∧ Emit (ToRoom "g")
                    (gameEnded (wins (other loser)) (expired loser)
                               (getGameState g'))
                  ∈ (ticker nowAt server0).2)
       ∧ (0 < remaining White g' ∧ 0 < remaining Black g' →
            status g' = playing
            ∧ Emit (ToRoom "g") (timeUpdate (whiteTime g') (blackTime g'))
              ∈ (ticker nowAt server0).2)).
Proof.
  split; [reflexivity|]. split; [reflexivity|].
  exact (proj1 (time_forfeit server0 "g" game0 eq_refl eq_refl)).
Defined.

(** The ticker ends the fixture session once white's 900 000 ms are used
    up, and reports the clocks before that. *)
Example ticker_runs_out :
  (ticker (λ _, 900000) server0).2
  = [Emit (ToRoom "g")
       (gameEnded black_wins whiteTimeExpired
          (getGameState
             (set_status time_out
                (set_lastMoveTime 900000 (set_whiteTime 0 game0)))))]
  ∧ (ticker (λ _, 1000) server0).2
    = [Emit (ToRoom "g") (timeUpdate 899000 900000)].
Proof. split; reflexivity. Qed.

(** ** Rejected moves *)

(** When the [makeMove] intent is answered without a throw and without a
    move, because the session id is not in the registry, the caller is not
    registered, or [Game.makeMove] returns [false], the server state is
    exactly what it was and the only effect is one [moveError] event sent
    to the caller's socket. *)
Lemma returned_false_changes_nothing (st : Server) (sid gameId : string)
    (fromRow fromCol toRow toCol : Num) (now : Z) :
  (Map_get gameId (games st) = None
   ∨ players st !! sid = None
   ∨ ∃ g, Map_get gameId (games st) = Some g
          ∧ (makeMove fromRow fromCol toRow toCol sid now g).1
            = returned None) →
  ∃ message,
    handleMakeMove sid gameId fromRow fromCol toRow toCol now st
    = (st, [Emit (ToSocket sid) (moveError message)]).
Proof.
  unfold handleMakeMove, moveSession. intros [Hg|[Hp|(g & Hg & Hm)]].
  - rewrite Hg. by exists gameOrPlayerNotFound.
  - rewrite Hp. exists gameOrPlayerNotFound.
    by destruct (Map_get gameId (games st)).
  - rewrite Hg. destruct (players st !! sid) as [player|];
      [|by exists gameOrPlayerNotFound].
    pose proof (makeMove_None g fromRow fromCol toRow toCol sid now Hm) as Hn.
    destruct (makeMove fromRow fromCol toRow toCol sid now g) as [mo g1].
    simpl in *. subst mo g1. exists invalidMove.
    rewrite (Map_set_get_id _ _ _ Hg). by destruct st.
Qed.

(** Black asks to move out of turn in the fixture: nothing changes and
    black gets the error. *)
Example returned_false_out_of_turn :
  handleMakeMove "b" "g" 1 4 3 4 1000 server0
  = (server0, [Emit (ToSocket "b") (moveError invalidMove)]).
Proof. reflexivity. Qed.

(** What the [makeMove] handler does when [Game.makeMove] throws: the
    listener ends with the exception, no [moveError] is sent, and the
    session is stored as the throw left it. *)
Lemma handleMakeMove_threw (st : Server) (sid gameId : string) (g : Game)
    (player : Player) (fromRow fromCol toRow toCol : Num) (now : Z) :
  Map_get gameId (games st) = Some g →
  players st !! sid = Some player →
  (makeMove fromRow fromCol toRow toCol sid now g).1 = threw →
  handleMakeMove sid gameId fromRow fromCol toRow toCol now st
  = (set_games
       (Map_set gameId
          (makeMove fromRow fromCol toRow toCol sid now g).2 (games st)) st,
     [Uncaught]).
Proof.
  intros Hg Hp Ht. unfold handleMakeMove, moveSession. rewrite Hg, Hp.
  destruct (makeMove fromRow fromCol toRow toCol sid now g) as [c g1].
  simpl in Ht. by subst c.
Qed.

(** C8 at its failing input.  In the fixture white, whose turn it is, asks
    to move the pawn e2 to row 4.5, 5000 ms after the session started.
    The request passes every test of [Game.makeMove], white's clock is
    debited the 5000 ms and the checkpoint is moved, and then the read of
    the destination throws: no move is accepted, the board, the log and
    the side to move are as before, but the stored session has changed
    and the caller is sent no [moveError] (the listener ends with the
    exception). *)
Theorem rejected_move_debits_clock :
  let c := makeMove 6 4 (fraction 4 1) 4 "a" 5000 game0 in
  let r := handleMakeMove "a" "g" 6 4 (fraction 4 1) 4 5000 server0 in
  c.1 = threw
  ∧ moveOf c.1 = None
  ∧ r.2 = [Uncaught]
  ∧ (∀ message, Emit (ToSocket "a") (moveError message) ∉ r.2)
  ∧ Map_get "g" (games r.1) = Some c.2
  ∧ whiteTime game0 = 900000 ∧ whiteTime c.2 = 895000
  ∧ lastMoveTime game0 = 0 ∧ lastMoveTime c.2 = 5000
  ∧ board c.2 = board game0 ∧ moves c.2 = moves game0
  ∧ currentPlayer c.2 = currentPlayer game0
  ∧ r.1 ≠ server0.
Proof.
  cbv zeta.
  split_and!; try reflexivity.
  - intros message H. apply list_elem_of_singleton in H. discriminate.
  - intros H.
    apply (f_equal (λ st, whiteTime <$> Map_get "g" (games st))) in H.
    vm_compute in H. discriminate.
Qed.

(** ** Draw by agreement *)

(** C10. For a registered session id, [acceptDraw] from any socket id sets
    the status to [draw] and broadcasts [gameEnded] with result draw to the
    session room, whatever the session's status was; the outcome does not
    depend on the caller. *)
Theorem acceptDraw_unconditional (st : Server) (gameId : string) (g : Game) :
  Map_get gameId (games st) = Some g →
  ∀ sid,
    let r := acceptDraw sid gameId st in
    (status <$> Map_get gameId (games r.1)) = Some draw
    ∧ Map_get gameId (games r.1) = Some (set_status draw g)
    ∧ r.2 = [Emit (ToRoom gameId)
               (gameEnded draw_result drawByAgreement
                          (getGameState (set_status draw g)))]
    ∧ ∀ sid', acceptDraw sid' gameId st = r.
Proof.
  intros Hg sid. simpl. unfold acceptDraw. rewrite Hg. simpl.
  rewrite Map_get_set_eq. done.
Qed.

Lemma acceptDraw_unconditional_witness :
  let st := (resign "b" "g" server0).1 in
  let g := set_status resigned game0 in
  Map_get "g" (games st) = Some g
  ∧ let r := acceptDraw "spectator" "g" st in
    (status <$> Map_get "g" (games r.1)) = Some draw
    ∧ Map_get "g" (games r.1) = Some (set_status draw g)
    ∧ r.2 = [Emit (ToRoom "g")
               (gameEnded draw_result drawByAgreement
                          (getGameState (set_status draw g)))]
    ∧ ∀ sid', acceptDraw sid' "g" st = r.
Proof.
  split; [reflexivity|].
  exact (acceptDraw_unconditional (resign "b" "g" server0).1 "g"
           (set_status resigned game0) eq_refl "spectator").
Defined.

(** ** Resignation *)

(** What [resign] does when the caller is a registered competitor. *)
Lemma resign_competitor (st : Server) (sid gameId : string) (g : Game)
    (player : Player) :
  Map_get gameId (games st) = Some g →
  players st !! sid = Some player →
  competitor sid g →
  resign sid gameId st
  = (set_games (Map_set gameId (set_status resigned g) (games st)) st,
     [Emit (ToRoom gameId)
        (gameEnded (if bool_decide (player_id (white g) = sid)
                    then black_wins else white_wins)
                   (playerResigned (player_name player))
                   (getGameState (set_status resigned g)))]).
Proof.
  intros Hg Hp Hc.
  assert (Hf : negb (bool_decide (player_id (white g) = sid))
               && negb (bool_decide (player_id (black g) = sid)) = false).
  { destruct Hc as [Hc|Hc].
    - by rewrite (bool_decide_eq_true_2 _ Hc).
    - rewrite (bool_decide_eq_true_2 _ Hc). apply andb_false_r. }
  unfold resign, resignSession. by rewrite Hg, Hp, Hf.
Qed.

(** C4, as the code has it. Every [resign] by a registered competitor of a
    registered session sets the status to [resigned] and broadcasts
    [gameEnded] with the other side as winner; a second call leaves the
    server state as the first call left it and broadcasts the same event
    again. *)
Theorem resign_twice (st : Server) (sid gameId : string) (g : Game)
    (player : Player) :
  Map_get gameId (games st) = Some g →
  players st !! sid = Some player →
  competitor sid g →
  let r1 := resign sid gameId st in
  let r2 := resign sid gameId r1.1 in
  Map_get gameId (games r1.1) = Some (set_status resigned g)
  ∧ r1.2 = [Emit (ToRoom gameId)
              (gameEnded (if bool_decide (player_id (white g) = sid)
                          then black_wins else white_wins)
                         (playerResigned (player_name player))
                         (getGameState (set_status resigned g)))]
  ∧ r2.1 = r1.1
  ∧ r2.2 = r1.2.
Proof.
  intros Hg Hp Hc. cbv zeta.
  rewrite (resign_competitor st sid gameId g player Hg Hp Hc).
  cbn [fst snd].
  rewrite (resign_competitor _ sid gameId (set_status resigned g) player).
  - simpl. by rewrite Map_get_set_eq, Map_set_set.
  - apply Map_get_set_eq.
  - done.
  - done.
Qed.

Lemma resign_twice_witness :
  Map_get "g" (games server0) = Some game0
  ∧ players server0 !! "b" = Some bob
  ∧ competitor "b" game0
  ∧ let r1 := resign "b" "g" server0 in
    let r2 := resign "b" "g" r1.1 in
    Map_get "g" (games r1.1) = Some (set_status resigned game0)
    ∧ r1.2 = [Emit (ToRoom "g")
                (gameEnded (if bool_decide (player_id (white game0) = "b")
                            then black_wins else white_wins)
                           (playerResigned (player_name bob))
                           (getGameState (set_status resigned game0)))]
    ∧ r2.1 = r1.1
    ∧ r2.2 = r1.2.
Proof.
  assert (Hc : competitor "b" game0) by (right; reflexivity).
  split; [reflexivity|]. split; [reflexivity|]. split; [exact Hc|].
  exact (resign_twice server0 "b" "g" game0 bob eq_refl eq_refl Hc).
Defined.

(** C4 as stated fails: the second [resign] of the same competitor on the
    same session broadcasts [gameEnded] again. *)
Lemma resign_twice_emits_again :
  let st1 := (resign "b" "g" server0).1 in
  resign "b" "g" st1 ≠ (st1, [])
  ∧ (resign "b" "g" st1).2
    = [Emit (ToRoom "g")
         (gameEnded white_wins (playerResigned "Bob")
                    (getGameState (set_status resigned game0)))].
Proof. split; [|reflexivity]. intros H. by apply (f_equal snd) in H. Qed.

(** ** Matchmaking *)

Lemma removeWaiting_cons (sid : string) (p : Player) (l : list Player) :
  removeWaiting sid (p :: l)
  = if bool_decide (player_id p = sid) then l else p :: removeWaiting sid l.
Proof.
  unfold removeWaiting, findIndex. cbn [list_find].
  destruct (bool_decide (player_id p = sid)) eqn:E.
  - by rewrite decide_True.
  - rewrite decide_False by done.
    by destruct (list_find _ l) as [[i x]|].
Qed.

Lemma removeWaiting_sublist (sid : string) (l : list Player) :
  removeWaiting sid l `sublist_of` l.
Proof.
  unfold removeWaiting. destruct (findIndex _ l); [apply sublist_delete|done].
Qed.

Lemma filter_all {A} (P : A → Prop) `{!∀ x, Decision (P x)} (l : list A) :
  Forall P l → filter P l = l.
Proof.
  induction 1 as [|x l Hx Hl IH]; [done|].
  by rewrite filter_cons_True, IH.
Qed.

(** With at most one ticket per identity, removing the caller's ticket
    removes every ticket of that identity. *)
Lemma removeWaiting_filter (sid : string) (l : list Player) :
  NoDup (player_id <$> l) →
  removeWaiting sid l = filter (λ p, player_id p ≠ sid) l.
Proof.
  induction l as [|p l IH]; [done|].
  rewrite fmap_cons, NoDup_cons. intros [Hp Hl].
  rewrite removeWaiting_cons. case_bool_decide as E.
  - rewrite filter_cons_False by (intros ?; done).
    symmetry. apply filter_all. apply Forall_forall. intros q Hq Heq.
    apply Hp. rewrite E, <- Heq. by apply list_elem_of_fmap_2.
  - by rewrite filter_cons_True, IH.
Qed.

Lemma removeWaiting_NoDup (sid : string) (l : list Player) :
  NoDup (player_id <$> l) → NoDup (player_id <$> removeWaiting sid l).
Proof.
  intros H. eapply sublist_NoDup; [exact H|].
  apply fmap_sublist, removeWaiting_sublist.
Qed.

(** [findIndex] with a predicate followed by [splice]: the list splits
    around the first element that satisfies the predicate. *)
Lemma list_find_split {A} (P : A → Prop) `{!∀ x, Decision (P x)}
    (l : list A) (i : nat) (x : A) :
  list_find P l = Some (i, x) →
  l = take i l ++ x :: drop (S i) l
  ∧ delete i l = take i l ++ drop (S i) l
  ∧ Forall (λ y, ¬ P y) (take i l)
  ∧ P x.
Proof.
  intros (Hl & Hx & Hlt)%list_find_Some. split_and!.
  - by rewrite take_drop_middle.
  - apply delete_take_drop.
  - apply Forall_lookup. intros j y Hj.
    apply lookup_take_Some in Hj as [Hj ?]. by apply (Hlt j).
  - done.
Qed.

Lemma inRange_eligible (player : Player) (range : Z) (ticket : Player) :
  inRange player range ticket = true ↔ eligible player range ticket.
Proof. unfold inRange, eligible. apply Z.leb_le. Qed.

(** What [findMatch] does for a registered caller. *)
Lemma findMatch_spec (st : Server) (sid : string) (ratingRange : option Z)
    (isPlayerWhite : bool) (gameId : string) (now : Z) (player : Player) :
  wf_server st →
  players st !! sid = Some player →
  let range := ratingRangeOf ratingRange in
  let queue := filter (λ p, player_id p ≠ sid) (waitingPlayers st) in
  let st' := (findMatch sid ratingRange isPlayerWhite gameId now st).1 in
  players st' = players st
  ∧ timers st' = timers st
  ∧ ((∃ pre opponent post,
        queue = pre ++ opponent :: post
        ∧ Forall (λ t, ¬ eligible player range t) pre
        ∧ eligible player range opponent
        ∧ waitingPlayers st' = pre ++ post
        ∧ games st'
          = Map_set gameId
              (newGame gameId
                 (if isPlayerWhite then player else opponent)
                 (if isPlayerWhite then opponent else player) now)
              (games st))
     ∨ (Forall (λ t, ¬ eligible player range t) queue
        ∧ waitingPlayers st' = queue ++ [player]
        ∧ games st' = games st)).
Proof.
  intros [Hnd Hid] Hp. simpl. unfold findMatch. rewrite Hp.
  rewrite (removeWaiting_filter sid _ Hnd).
  set (queue := filter (λ p, player_id p ≠ sid) (waitingPlayers st)).
  destruct (list_find _ queue) as [[i opponent]|] eqn:E; simpl.
  - apply list_find_split in E as (Hq & Hd & Hpre & Hopp).
    split; [done|]. split; [done|]. left.
    exists (take i queue), opponent, (drop (S i) queue). split_and!.
    + done.
    + eapply Forall_impl; [exact Hpre|]. intros t Ht He.
      by apply Ht, inRange_eligible.
    + by apply inRange_eligible.
    + done.
    + done.
  - apply list_find_None in E.
    split; [done|]. split; [done|]. right. split_and!; try done.
    eapply Forall_impl; [exact E|]. intros t Ht He.
    by apply Ht, inRange_eligible.
Qed.

Lemma findMatch_wf (st : Server) (sid : string) (ratingRange : option Z)
    (isPlayerWhite : bool) (gameId : string) (now : Z) :
  wf_server st →
  wf_server (findMatch sid ratingRange isPlayerWhite gameId now st).1.
Proof.
  intros Hwf. destruct (players st !! sid) as [player|] eqn:Hp.
  2:{ unfold findMatch. by rewrite Hp. }
  pose proof (findMatch_spec st sid ratingRange isPlayerWhite gameId now
                player Hwf Hp) as (Hpl & _ & Hcase).
  simpl in *. destruct Hwf as [Hnd Hid].
  set (st' := (findMatch sid ratingRange isPlayerWhite gameId now st).1) in *.
  assert (Hq : NoDup (player_id <$>
                        filter (λ p, player_id p ≠ sid) (waitingPlayers st))).
  { eapply sublist_NoDup; [exact Hnd|]. apply fmap_sublist, sublist_filter. }
  split.
  - destruct Hcase as [(pre & opp & post & Hsplit & _ & _ & -> & _)
                      |(_ & -> & _)].
    + rewrite Hsplit in Hq. eapply sublist_NoDup; [exact Hq|].
      apply fmap_sublist, sublist_app; [done|]. by apply sublist_cons.
    + rewrite fmap_app. apply NoDup_app. split_and!.
      * done.
      * intros x Hx Hx'. simpl in Hx'.
        apply list_elem_of_singleton in Hx'. subst x.
        apply list_elem_of_fmap in Hx as (q & Hq1 & Hq2).
        apply list_elem_of_filter in Hq2 as [Hne _].
        apply Hne. rewrite <- Hq1. by apply Hid.
      * simpl. apply NoDup_singleton.
  - rewrite Hpl. exact Hid.
Qed.

(** Handlers other than [register], [findMatch] and [disconnect] leave the
    queue and the player directory alone. *)
Lemma step_matchmaking_frame (i : Input) (st : Server) :
  match i with
  | in_register _ _ _ | in_findMatch _ _ _ _ _ | in_disconnect _ => True
  | _ => waitingPlayers (step i st).1 = waitingPlayers st
         ∧ players (step i st).1 = players st
  end.
Proof.
  destruct i as [| |sid gameId fr fc tr tc now|sid gameId|sid gameId
                |sid gameId|sid gameId| |n|nowAt]; simpl; try done.
  - unfold handleMakeMove.
    destruct (Map_get gameId (games st)) as [g|]; [|done].
    destruct (players st !! sid); [|done].
    by destruct (moveSession sid gameId fr fc tr tc now g).
  - unfold spectateGame. by destruct (Map_get gameId (games st)).
  - unfold resign.
    destruct (Map_get gameId (games st)) as [g|]; [|done].
    destruct (players st !! sid) as [p|]; [|done].
    by destruct (resignSession sid gameId p g).
  - unfold offerDraw.
    destruct (Map_get gameId (games st)) as [g|]; [|done].
    by destruct (players st !! sid).
  - unfold acceptDraw. by destruct (Map_get gameId (games st)).
  - unfold fireTimer. destruct (timers st !! n) as [t|]; [|done].
    unfold disconnectTimeout. simpl.
    by destruct (Map_get (timer_gameId t) (games st)).
Qed.

Lemma step_wf (i : Input) (st : Server) :
  wf_server st → wf_server (step i st).1.
Proof.
  intros Hwf. pose proof (step_matchmaking_frame i st) as Hf.
  destruct i as [sid name rating|sid range coin gameId now| | | | | |sid| |];
    try (unfold wf_server; rewrite (proj1 Hf), (proj2 Hf); exact Hwf).
  - destruct Hwf as [Hnd Hid]. split; [exact Hnd|].
    intros sid' p. simpl. rewrite lookup_insert. case_decide as E.
    + intros [= <-]. by subst.
    + apply Hid.
  - by apply findMatch_wf.
  - destruct Hwf as [Hnd Hid]. split; simpl.
    + by apply removeWaiting_NoDup.
    + intros sid' p Hl. apply lookup_delete_Some in Hl as [_ Hl].
      by apply Hid.
Qed.

Lemma run_invariant (P : Server → Prop) :
  (∀ i st, P st → P (step i st).1) →
  ∀ ins st, P st → P (run ins st).1.
Proof.
  intros Hstep ins. induction ins as [|i ins IH]; intros st Hst; [done|].
  simpl. specialize (Hstep i st Hst).
  destruct (step i st) as [st1 e1]. specialize (IH st1 Hstep).
  by destruct (run ins st1).
Qed.

(** The same for a property kept by the steps that do not throw, along a
    run in which no listener throws. *)
Lemma run_invariant_live (P : Server → Prop) :
  (∀ i st, P st → crashed (step i st).2 = false → P (step i st).1) →
  ∀ ins st, P st → crashed (run ins st).2 = false → P (run ins st).1.
Proof.
  intros Hstep ins. induction ins as [|i ins IH]; intros st Hst; [done|].
  simpl. specialize (Hstep i st Hst).
  destruct (step i st) as [st1 e1]. specialize (IH st1).
  destruct (run ins st1) as [st2 e2]. simpl in *.
  intros [H1 H2]%crashed_app. by apply IH; [apply Hstep|].
Qed.

(** The invariant holds in every state the server reaches. *)
Lemma reachable_wf (st : Server) : reachable st → wf_server st.
Proof.
  intros (ins & <- & _). apply run_invariant; [apply step_wf|].
  split; [constructor|]. intros sid p. simpl. by rewrite lookup_empty.
Qed.


Lemma queue0_reachable : reachable queue0.
Proof.
  exists [in_register "c" (Some "Carol") (Some 1000);
          in_findMatch "c" None true "x" 0;
          in_register "a" (Some "Alice") (Some 1500);
          in_findMatch "a" None true "y" 0;
          in_register "b" (Some "Bob") (Some 1650)].
  vm_compute. split; reflexivity.
Qed.


(** On that queue Bob is paired with Alice, the first ticket in range, and
    Carol keeps waiting. *)
Example findMatch_pairs_first_in_range :
  let st' := (findMatch "b" None false "g" 0 queue0).1 in
  waitingPlayers st' = [mkPlayer "c" "Carol" 1000]
  ∧ Map_get "g" (games st') = Some (newGame "g" alice bob 0).
Proof. vm_compute. split; reflexivity. Qed.

(** ** Disconnection *)

Lemma Map_delete_set {V} (k : string) (v : V) (m : list (string * V)) :
  Map_delete k (Map_set k v m) = Map_delete k m.
Proof.
  induction m as [|[k' v'] m IH]; simpl.
  - by rewrite decide_True.
  - destruct (decide (k' = k)) as [->|Hne]; simpl.
    + by rewrite decide_True.
    + by rewrite decide_False, IH.
Qed.

(** The disconnect handler keeps the status of every session and schedules
    the deferred callback, 30 000 ms later, for each session in which the
    caller is a competitor. *)
Lemma disconnect_lookup (st : Server) (sid gameId : string) (g : Game) :
  Map_get gameId (games st) = Some g →
  Map_get gameId (games (disconnect sid st).1)
  = Some (set_spectators (spectators g ∖ {[sid]}) g)
  ∧ (competitor sid g →
     mkTimer 30000 gameId sid ∈ timers (disconnect sid st).1).
Proof.
  unfold disconnect. simpl. intros Hg. split.
  - revert Hg. generalize (games st) as m.
    induction m as [|[k v] m IH]; simpl; [done|].
    destruct (decide (k = gameId)) as [->|Hne]; [by intros [= ->]|done].
  - intros Hc. apply elem_of_app. right.
    revert Hg. generalize (games st) as m.
    induction m as [|[k v] m IH]; simpl; [done|].
    destruct (decide (k = gameId)) as [->|Hne].
    + intros [= ->]. apply elem_of_app. left.
      assert (bool_decide (player_id (white g) = sid)
              || bool_decide (player_id (black g) = sid) = true) as ->.
      { destruct Hc as [Hc|Hc]; rewrite (bool_decide_eq_true_2 _ Hc);
          [done|apply orb_true_r]. }
      apply list_elem_of_singleton. done.
    + intros Hg. apply elem_of_app. right. by apply IH.
Qed.

(** C3, as the code has it. When a competitor of a registered session
    disconnects, the status is kept and a callback is scheduled 30 000 ms
    later. When the callback fires it looks only at the registry: if the
    session id is still registered, whatever the status, the status becomes
    [disconnected], [gameEnded] naming the other side as winner is
    broadcast to the room and the session is removed from the registry; if
    the id is no longer registered nothing happens. *)
Theorem disconnect_timeout_checks_registry_only (st : Server)
    (sid gameId : string) (g : Game) :
  Map_get gameId (games st) = Some g →
  (competitor sid g →
     (status <$> Map_get gameId (games (disconnect sid st).1))
     = Some (status g)
     ∧ mkTimer 30000 gameId sid ∈ timers (disconnect sid st).1)
  ∧ (let r := disconnectTimeout sid gameId st in
     Map_get gameId (games r.1) = None
     ∧ r.2 = [Emit (ToRoom gameId)
                (gameEnded
                   (if bool_decide (player_id (white g) = sid)
                    then black_wins else white_wins)
                   (playerLeft
                      (player_name
                         (if bool_decide (player_id (white g) = sid)
                          then white g else black g)))
                   (getGameState (set_status disconnected g)))])
  ∧ (∀ st0, Map_get gameId (games st0) = None →
            disconnectTimeout sid gameId st0 = (st0, [])).
Proof.
  intros Hg. split_and!.
  - intros Hc. destruct (disconnect_lookup st sid gameId g Hg) as [-> Ht].
    split; [done|]. by apply Ht.
  - unfold disconnectTimeout, timeoutSession. rewrite Hg. simpl.
    split; [|done]. apply Map_get_delete_eq.
  - intros st0 H0. unfold disconnectTimeout. by rewrite H0.
Qed.

Lemma disconnect_timeout_checks_registry_only_witness :
  let st := (resign "b" "g" (disconnect "a" server0).1).1 in
  let g := set_status resigned game0 in
  Map_get "g" (games st) = Some g
  ∧ competitor "a" g
  ∧ (let r := disconnectTimeout "a" "g" st in
     Map_get "g" (games r.1) = None
     ∧ r.2 = [Emit (ToRoom "g")
                (gameEnded
                   (if bool_decide (player_id (white g) = "a")
                    then black_wins else white_wins)
                   (playerLeft
                      (player_name
                         (if bool_decide (player_id (white g) = "a")
                          then white g else black g)))
                   (getGameState (set_status disconnected g)))]).
Proof.
  split; [vm_compute; reflexivity|]. split; [left; reflexivity|].
  refine (proj1 (proj2 (disconnect_timeout_checks_registry_only
            (resign "b" "g" (disconnect "a" server0).1).1 "a" "g"
            (set_status resigned game0) _))).
  vm_compute. reflexivity.
Defined.

(** C3 as stated fails: white disconnects, black resigns within the grace
    period so that the session is [resigned], and the callback still fires:
    it announces [disconnected] with black as winner and removes the
    session. *)
Lemma disconnect_timeout_overwrites_resigned :
  let st1 := (disconnect "a" server0).1 in
  let st2 := (resign "b" "g" st1).1 in
  let r := fireTimer 0 st2 in
  timers st1 = [mkTimer 30000 "g" "a"]
  ∧ (status <$> Map_get "g" (games st2)) = Some resigned
  ∧ r.2 = [Emit (ToRoom "g")
             (gameEnded black_wins (playerLeft "Alice")
                (getGameState (set_status disconnected game0)))]
  ∧ gs_status (getGameState (set_status disconnected game0)) = disconnected
  ∧ Map_get "g" (games r.1) = None.
Proof. vm_compute. split_and!; reflexivity. Qed.

(** ** Sessions inside the server *)

(** Whatever the server does, a registered session is either removed (by
    a fired disconnect callback), replaced by a new session created under
    the same id, left as it is, or changed by one session operation. *)
Lemma step_session (i : Input) (st : Server) (gameId : string) (g : Game) :
  Map_get gameId (games st) = Some g →
  Map_get gameId (games (step i st).1) = None
  ∨ (∃ w b now,
       Map_get gameId (games (step i st).1) = Some (newGame gameId w b now))
  ∨ Map_get gameId (games (step i st).1) = Some g
  ∨ ∃ op, Map_get gameId (games (step i st).1)
          = Some (applyOp gameId op g).1.
Proof.
  intros Hg.
  destruct i as [sid name rating|sid range coin gid now
                |sid gid fr fc tr tc now|sid gid|sid gid
                |sid gid|sid gid|sid|n|nowAt]; cbn [step].
  - by right; right; left.
  - unfold findMatch. destruct (players st !! sid) as [player|];
      [|by right; right; left].
    destruct (list_find _ _) as [[j opp]|]; simpl; [|by right; right; left].
    destruct (decide (gid = gameId)) as [->|Hne].
    + right; left. eexists _, _, _. apply Map_get_set_eq.
    + right; right; left. by rewrite Map_get_set_ne.
  - unfold handleMakeMove.
    destruct (Map_get gid (games st)) as [g0|] eqn:Hg0;
      [|by right; right; left].
    destruct (players st !! sid) as [player|]; [|by right; right; left].
    destruct (moveSession sid gid fr fc tr tc now g0) as [g' effs] eqn:E.
    simpl. destruct (decide (gid = gameId)) as [->|Hne].
    + right; right; right. exists (op_makeMove sid fr fc tr tc now).
      simpl. rewrite Map_get_set_eq. rewrite Hg in Hg0.
      injection Hg0 as <-. by rewrite E.
    + right; right; left. by rewrite Map_get_set_ne.
  - unfold spectateGame.
    destruct (Map_get gid (games st)) as [g0|] eqn:Hg0;
      [|by right; right; left].
    simpl. destruct (decide (gid = gameId)) as [->|Hne].
    + right; right; right. exists (op_spectate sid).
      rewrite Map_get_set_eq. rewrite Hg in Hg0. by injection Hg0 as <-.
    + right; right; left. by rewrite Map_get_set_ne.
  - unfold resign.
    destruct (Map_get gid (games st)) as [g0|] eqn:Hg0;
      [|by right; right; left].
    destruct (players st !! sid) as [player|]; [|by right; right; left].
    destruct (resignSession sid gid player g0) as [g' effs] eqn:E.
    simpl. destruct (decide (gid = gameId)) as [->|Hne].
    + right; right; right. exists (op_resign sid player).
      simpl. rewrite Map_get_set_eq. rewrite Hg in Hg0.
      injection Hg0 as <-. by rewrite E.
    + right; right; left. by rewrite Map_get_set_ne.
  - unfold offerDraw.
    destruct (Map_get gid (games st)); [|by right; right; left].
    destruct (players st !! sid); by right; right; left.
  - unfold acceptDraw.
    destruct (Map_get gid (games st)) as [g0|] eqn:Hg0;
      [|by right; right; left].
    simpl. destruct (decide (gid = gameId)) as [->|Hne].
    + right; right; right. exists op_acceptDraw.
      rewrite Map_get_set_eq. rewrite Hg in Hg0. by injection Hg0 as <-.
    + right; right; left. by rewrite Map_get_set_ne.
  - right; right; right. exists (op_disconnect sid (players st !! sid)).
    by destruct (disconnect_lookup st sid gameId g Hg) as [-> _].
  - unfold fireTimer. destruct (timers st !! n) as [t|];
      [|by right; right; left].
    unfold disconnectTimeout. simpl.
    destruct (Map_get (timer_gameId t) (games st)) as [g0|];
      [|by right; right; left].
    simpl. destruct (decide (timer_gameId t = gameId)) as [->|Hne].
    + left. apply Map_get_delete_eq.
    + right; right; left.
      by rewrite Map_get_delete_ne, Map_get_set_ne.
  - right; right; right. exists (op_tick (nowAt gameId)).
    by destruct (ticker_lookup nowAt st gameId g Hg) as [-> _].
Qed.

(** In every state the server reaches, white is to move in a registered
    session exactly when its move log has even length. *)
Lemma reachable_side_to_move (st : Server) :
  reachable st →
  ∀ gameId g, Map_get gameId (games st) = Some g →
    currentPlayer g
    = if Nat.even (length (moves g)) then White else Black.
Proof.
  intros (ins & <- & _).
  apply (run_invariant
           (λ st, ∀ gameId g, Map_get gameId (games st) = Some g →
              currentPlayer g
              = if Nat.even (length (moves g)) then White else Black));
    [|done].
  intros i st IH gameId g' Hg'.
  assert (Hnew : ∀ gid k, Map_get gid (games st) = None →
            Map_get gid (games (step i st).1) = Some k →
            currentPlayer k
            = if Nat.even (length (moves k)) then White else Black).
  { intros gid k Hnone.
    destruct i as [sid name rating|sid range coin gid' now
                  |sid gid' fr fc tr tc now|sid gid'|sid gid'
                  |sid gid'|sid gid'|sid|n|nowAt]; cbn [step].
    - simpl. congruence.
    - unfold findMatch. destruct (players st !! sid); [|simpl; congruence].
      destruct (list_find _ _) as [[j opp]|]; simpl; [|simpl; congruence].
      destruct (decide (gid' = gid)) as [->|Hne].
      + rewrite Map_get_set_eq. by intros [= <-].
      + rewrite Map_get_set_ne by done. congruence.
    - unfold handleMakeMove.
      destruct (Map_get gid' (games st)) as [g0|] eqn:Hg0; [|simpl; congruence].
      destruct (players st !! sid); [|simpl; congruence].
      destruct (moveSession sid gid' fr fc tr tc now g0). simpl.
      rewrite Map_get_set_ne by congruence. congruence.
    - unfold spectateGame.
      destruct (Map_get gid' (games st)) as [g0|] eqn:Hg0; [|simpl; congruence].
      simpl. rewrite Map_get_set_ne by congruence. congruence.
    - unfold resign.
      destruct (Map_get gid' (games st)) as [g0|] eqn:Hg0; [|simpl; congruence].
      destruct (players st !! sid) as [p|]; [|simpl; congruence].
      destruct (resignSession sid gid' p g0). simpl.
      rewrite Map_get_set_ne by congruence. congruence.
    - unfold offerDraw.
      destruct (Map_get gid' (games st)); [|simpl; congruence].
      destruct (players st !! sid); simpl; congruence.
    - unfold acceptDraw.
      destruct (Map_get gid' (games st)) as [g0|] eqn:Hg0; [|simpl; congruence].
      simpl. rewrite Map_get_set_ne by congruence. congruence.
    - unfold disconnect. simpl. intros Hk. exfalso. revert Hnone Hk.
      generalize (games st) as m.
      induction m as [|[k0 v0] m IHm]; simpl; [done|].
      destruct (decide (k0 = gid)); [done|]. apply IHm.
    - unfold fireTimer.
      destruct (timers st !! n) as [t|]; [|simpl; congruence].
      unfold disconnectTimeout. simpl.
      destruct (Map_get (timer_gameId t) (games st)) as [g0|] eqn:Hg0;
        [|simpl; congruence].
      simpl.
      destruct (decide (timer_gameId t = gid)) as [<-|Hne].
      + by rewrite Map_get_delete_eq.
      + rewrite Map_get_delete_ne, Map_get_set_ne by done. congruence.
    - unfold ticker. simpl. intros Hk. exfalso. revert Hnone Hk.
      generalize (games st) as m.
      induction m as [|[k0 v0] m IHm]; simpl; [done|].
      destruct (tickSession k0 (nowAt k0) v0). simpl.
      destruct (decide (k0 = gid)); [done|]. apply IHm. }
  destruct (Map_get gameId (games st)) as [g|] eqn:Hg; [|by eapply Hnew].
  destruct (step_session i st gameId g Hg)
    as [H|[(w & b & now & H)|[H|[op H]]]]; rewrite H in Hg'.
  - done.
  - by injection Hg' as <-.
  - injection Hg' as <-. by eapply IH.
  - injection Hg' as <-.
    rewrite applyOp_currentPlayer, applyOp_moves_length.
    rewrite (IH gameId g Hg).
    destruct (accepted op g); [|done].
    change (1 + length (moves g))%nat with (S (length (moves g))).
    rewrite Nat.even_succ, <- Nat.negb_even.
    by destruct (Nat.even (length (moves g))).
Qed.

(** ** Turn alternation *)

(** An operation is an accepted move exactly when it is a [makeMove]
    request that meets the acceptance condition. *)
Lemma accepted_accepts (op : SessionOp) (g : Game) :
  accepted op g = true
  ↔ ∃ sid fromRow fromCol toRow toCol now,
      op = op_makeMove sid fromRow fromCol toRow toCol now
      ∧ accepts g fromRow fromCol toRow toCol sid.
Proof.
  destruct op as [sid fr fc tr tc now|sid player| |sid|sid player|sid|now];
    simpl;
    try (split; [done|by intros (? & ? & ? & ? & ? & ? & [=] & _)]).
  rewrite bool_decide_eq_true, makeMove_accepts. split.
  - intros H. by exists sid, fr, fc, tr, tc, now.
  - by intros (? & ? & ? & ? & ? & ? & [= -> -> -> -> -> ->] & H).
Qed.

(** The [makeMove] handler on a request that meets the acceptance
    condition, sent by a registered player for a registered session: the
    side to move of the stored session has changed. *)
Lemma handleMakeMove_toggles (st : Server) (sid gameId : string) (g : Game)
    (player : Player) (fromRow fromCol toRow toCol : Num) (now : Z) :
  Map_get gameId (games st) = Some g →
  players st !! sid = Some player →
  accepts g fromRow fromCol toRow toCol sid →
  (currentPlayer
     <$> Map_get gameId
           (games
              (handleMakeMove sid gameId fromRow fromCol toRow toCol now
                              st).1))
  = Some (other (currentPlayer g)).
Proof.
  intros Hg Hp Ha. unfold handleMakeMove. rewrite Hg, Hp.
  pose proof (applyOp_currentPlayer gameId
                (op_makeMove sid fromRow fromCol toRow toCol now) g) as Hc.
  assert (Hacc : accepted (op_makeMove sid fromRow fromCol toRow toCol now) g
                 = true).
  { apply accepted_accepts.
    by exists sid, fromRow, fromCol, toRow, toCol, now. }
  rewrite Hacc in Hc. cbn [applyOp] in Hc.
  destruct (moveSession sid gameId fromRow fromCol toRow toCol now g)
    as [g' effs].
  simpl in *. by rewrite Map_get_set_eq, <- Hc.
Qed.

(** C9. The side to move toggles on an accepted move and on nothing else,
    and a move is accepted exactly when the request meets the acceptance
    condition of [Game.makeMove]; so the [makeMove] handler, on such a
    request by a registered player, hands the move to the other side.
    After any sequence of operations on a new session of which N were
    accepted moves, white is to move when N is even and black when N is odd
    (N is also the length of the move log), and the same holds of every
    registered session in every state the server reaches; the side to move
    is a single value, so white and black are never to move together. *)
Theorem side_to_move_alternates :
  (∀ gameId op g,
     currentPlayer (applyOp gameId op g).1
     = if accepted op g then other (currentPlayer g) else currentPlayer g)
  ∧ (∀ op g,
       accepted op g = true
       ↔ ∃ sid fromRow fromCol toRow toCol now,
           op = op_makeMove sid fromRow fromCol toRow toCol now
           ∧ accepts g fromRow fromCol toRow toCol sid)
  ∧ (∀ st sid gameId g player fromRow fromCol toRow toCol now,
       Map_get gameId (games st) = Some g →
       players st !! sid = Some player →
       accepts g fromRow fromCol toRow toCol sid →
       (currentPlayer
          <$> Map_get gameId
                (games
                   (handleMakeMove sid gameId fromRow fromCol toRow toCol
                                   now st).1))
       = Some (other (currentPlayer g)))
  ∧ (∀ id w b t0 gameId ops,
       let r := runOps gameId ops (newGame id w b t0) in
       currentPlayer r.1 = (if Nat.even r.2 then White else Black)
       ∧ length (moves r.1) = r.2)
  ∧ (∀ st gameId g,
       reachable st → Map_get gameId (games st) = Some g →
       currentPlayer g
       = if Nat.even (length (moves g)) then White else Black)
  ∧ (∀ g : Game, ¬ (currentPlayer g = White ∧ currentPlayer g = Black))
  ∧ (∀ c, other c ≠ c).
Proof.
  split_and!.
  - apply applyOp_currentPlayer.
  - apply accepted_accepts.
  - intros st sid gameId g player fr fc tr tc now.
    apply handleMakeMove_toggles.
  - intros id w b t0 gameId ops. simpl. split.
    + rewrite runOps_currentPlayer. simpl.
      by destruct (Nat.even _).
    + rewrite runOps_moves_length. simpl. lia.
  - intros st gameId g Hr Hg. by eapply reachable_side_to_move.
  - intros g [H1 H2]. congruence.
  - by intros [].
Qed.

(** The fixture after white's pawn went from e2 to e4: the request meets
    the acceptance condition, and black is to move in the stored session. *)
Lemma side_to_move_alternates_witness :
  Map_get "g" (games server0) = Some game0
  ∧ players server0 !! "a" = Some alice
  ∧ accepts game0 6 4 4 4 "a"
  ∧ currentPlayer game0 = White
  ∧ (currentPlayer
       <$> Map_get "g"
             (games (handleMakeMove "a" "g" 6 4 4 4 1000 server0).1))
    = Some Black.
Proof.
  assert (Ha : accepts game0 6 4 4 4 "a").
  { unfold accepts. simpl. split_and!; try lia.
    - by exists 4.
    - exists WP. split; reflexivity.
    - reflexivity. }
  split; [reflexivity|]. split; [reflexivity|]. split; [exact Ha|].
  split; [reflexivity|].
  exact (proj1 (proj2 (proj2 side_to_move_alternates))
           server0 "a" "g" game0 alice 6 4 4 4 1000 eq_refl eq_refl Ha).
Defined.

(** Three moves on the fixture session, the second one out of turn: two
    are accepted and white is to move again. *)
Example side_to_move_after_two_moves :
  runOps "g" [op_makeMove "a" 6 4 4 4 1000;
              op_makeMove "a" 6 3 4 3 2000;
              op_makeMove "b" 1 4 3 4 3000] game0
  = ((applyOp "g" (op_makeMove "b" 1 4 3 4 3000)
        (applyOp "g" (op_makeMove "a" 6 4 4 4 1000) game0).1).1, 2%nat)
  ∧ currentPlayer
      (runOps "g" [op_makeMove "a" 6 4 4 4 1000;
                   op_makeMove "a" 6 3 4 3 2000;
                   op_makeMove "b" 1 4 3 4 3000] game0).1 = White.
Proof. vm_compute. split; reflexivity. Qed.

(** ** Terminal sessions *)

(** A terminal status is still terminal after any session operation. *)
Lemma applyOp_terminal (gameId : string) (op : SessionOp) (g : Game) :
  terminal (status g) → terminal (status (applyOp gameId op g).1).
Proof.
  intros Ht.
  destruct op as [sid fr fc tr tc now|sid player| |sid|sid player|sid|now];
    simpl.
  - unfold moveSession.
    pose proof (makeMove_status g fr fc tr tc sid now) as Hs.
    destruct (makeMove fr fc tr tc sid now g) as [[[m|]|] g']; simpl in *.
    + pose proof (checkTimeAfterMove_fields gameId g')
        as (_ & _ & _ & _ & _ & _ & Hc).
      destruct (checkTimeAfterMove gameId g') as [g2 ended]; simpl in *.
      destruct Hc as [-> | ->]; [by rewrite Hs|].
      apply terminal_elim; tauto.
    + by rewrite Hs.
    + by rewrite Hs.
  - unfold resignSession. destruct (negb _ && negb _); simpl; [done|].
    apply terminal_elim; tauto.
  - apply terminal_elim; tauto.
  - done.
  - done.
  - apply terminal_elim; tauto.
  - unfold tickSession.
    rewrite bool_decide_eq_false_2; [done|]. by apply terminal_not_playing.
Qed.

(** C1, as the code has it. Once a session's status is terminal the ticker
    leaves the session untouched and emits nothing for it, [Game.makeMove]
    never writes the status, and after every operation the status is still
    terminal: the session never returns to [playing]. Inside the server,
    whatever input arrives, the session registered under that id is
    afterwards removed, still terminal, or a new session created under the
    same id. *)
Theorem terminal_session_stays_terminal (g : Game) :
  terminal (status g) →
  (∀ gameId now, tickSession gameId now g = (g, []))
  ∧ (∀ fromRow fromCol toRow toCol playerId now,
       status (makeMove fromRow fromCol toRow toCol playerId now g).2
       = status g)
  ∧ (∀ gameId op, terminal (status (applyOp gameId op g).1))
  ∧ (∀ i st gameId g',
       Map_get gameId (games st) = Some g →
       Map_get gameId (games (step i st).1) = Some g' →
       terminal (status g') ∨ ∃ w b now, g' = newGame gameId w b now).
Proof.
  intros Ht. split_and!.
  - intros gameId now. unfold tickSession.
    rewrite bool_decide_eq_false_2; [done|]. by apply terminal_not_playing.
  - intros. apply makeMove_status.
  - intros gameId op. by apply applyOp_terminal.
  - intros i st gameId g' Hg Hg'.
    destruct (step_session i st gameId g Hg)
      as [H|[(w & b & now & H)|[H|[op H]]]]; rewrite H in Hg'.
    + done.
    + injection Hg' as <-. right. by eexists _, _, _.
    + injection Hg' as <-. by left.
    + injection Hg' as <-. left. by apply applyOp_terminal.
Qed.

Lemma terminal_session_stays_terminal_witness :
  let g := set_status resigned game0 in
  terminal (status g)
  ∧ (∀ gameId now, tickSession gameId now g = (g, []))
  ∧ (∀ fromRow fromCol toRow toCol playerId now,
       status (makeMove fromRow fromCol toRow toCol playerId now g).2
       = status g)
  ∧ (∀ gameId op, terminal (status (applyOp gameId op g).1))
  ∧ (∀ i st gameId g',
       Map_get gameId (games st) = Some g →
       Map_get gameId (games (step i st).1) = Some g' →
       terminal (status g') ∨ ∃ w b now, g' = newGame gameId w b now).
Proof.
  assert (Ht : terminal (status (set_status resigned game0))).
  { apply terminal_elim. simpl. tauto. }
  split; [exact Ht|].
  exact (terminal_session_stays_terminal (set_status resigned game0) Ht).
Defined.

(** C1 as stated fails: after black has resigned, white's move e2-e4 is
    still accepted and changes board, move log, white's clock and the side
    to move, and an [acceptDraw] then replaces [resigned] by [draw]. *)
Lemma terminal_session_still_mutated :
  let st := (resign "b" "g" server0).1 in
  let st1 := (handleMakeMove "a" "g" 6 4 4 4 5000 st).1 in
  let st2 := (acceptDraw "a" "g" st1).1 in
  (status <$> Map_get "g" (games st)) = Some resigned
  ∧ (board <$> Map_get "g" (games st1)) ≠ (board <$> Map_get "g" (games st))
  ∧ (length ∘ moves <$> Map_get "g" (games st1)) = Some 1%nat
  ∧ (whiteTime <$> Map_get "g" (games st1)) = Some 895000
  ∧ (currentPlayer <$> Map_get "g" (games st1)) = Some Black
  ∧ (status <$> Map_get "g" (games st2)) = Some draw.
Proof. vm_compute. split_and!; try reflexivity. discriminate. Qed.

(** ** The board *)

Lemma boardSet_wf (b : Board) (r c : Z) (v : option Piece) :
  wf_board b → wf_board (boardSet b r c v).
Proof.
  intros [Hl Hr]. unfold boardSet, Board. split.
  - by rewrite length_alter.
  - apply Forall_alter; [done|]. intros row _ Hrow. by rewrite length_insert.
Qed.

Lemma boardAt_boardSet_eq (b : Board) (r c : Z) (v : option Piece) :
  wf_board b → inBounds r → inBounds c →
  boardAt (boardSet b r c v) r c = v.
Proof.
  intros [Hl Hr] Hrb Hcb. unfold boardAt, boardSet, inBounds, Board in *.
  rewrite list_lookup_alter_eq.
  destruct (b !! Z.to_nat r) as [row|] eqn:E; simpl.
  - rewrite list_lookup_insert_eq; [done|].
    rewrite Forall_lookup in Hr. rewrite (Hr _ _ E). lia.
  - apply lookup_ge_None in E. lia.
Qed.

Lemma boardAt_boardSet_ne (b : list (list (option Piece))) (r c r' c' : Z)
    (v : option Piece) :
  0 ≤ r → 0 ≤ c → 0 ≤ r' → 0 ≤ c' → (r, c) ≠ (r', c') →
  boardAt (boardSet b r c v) r' c' = boardAt b r' c'.
Proof.
  intros Hr Hc Hr' Hc' Hne. unfold boardAt, boardSet, Board.
  destruct (decide (r = r')) as [->|Hrr].
  - rewrite list_lookup_alter_eq.
    destruct (b !! Z.to_nat r') as [row|]; simpl; [|done].
    rewrite list_lookup_insert_ne; [done|].
    intros Heq. apply Hne. f_equal. lia.
  - rewrite list_lookup_alter_ne; [done|]. lia.
Qed.

Lemma getInitialBoard_wf : wf_board getInitialBoard.
Proof. split; [done|]. repeat constructor. Qed.

(** ** What a session operation keeps *)

Lemma moveSession_cases (sid gameId : string) (fr fc tr tc : Num) (now : Z)
    (g : Game) :
  let r := moveSession sid gameId fr fc tr tc now g in
  (r.1 = g ∧ (makeMove fr fc tr tc sid now g).1 = returned None
   ∧ crashed r.2 = false)
  ∨ ((makeMove fr fc tr tc sid now g).1 = threw
     ∧ r = ((makeMove fr fc tr tc sid now g).2, [Uncaught]))
  ∨ ∃ m g1, makeMove fr fc tr tc sid now g = (returned (Some m), g1)
      ∧ crashed r.2 = false
      ∧ ((r.1 = g1 ∧ 0 < whiteTime g1 ∧ 0 < blackTime g1)
         ∨ (r.1 = set_status time_out g1
            ∧ (whiteTime g1 ≤ 0 ∨ blackTime g1 ≤ 0))).
Proof.
  simpl. unfold moveSession.
  pose proof (makeMove_None g fr fc tr tc sid now) as Hn.
  destruct (makeMove fr fc tr tc sid now g) as [[[m|]|] g1] eqn:E;
    simpl in *.
  - right. right. exists m, g1. split; [done|]. unfold checkTimeAfterMove.
    destruct (whiteTime g1 <=? 0) eqn:Ew; simpl.
    { split; [done|]. right. split; [done|]. left. by apply Z.leb_le. }
    destruct (blackTime g1 <=? 0) eqn:Eb; simpl.
    { split; [done|]. right. split; [done|]. right. by apply Z.leb_le. }
    split; [done|]. left. apply Z.leb_gt in Ew, Eb. done.
  - left. by rewrite Hn.
  - right. by left.
Qed.

Lemma tickSession_cases (gameId : string) (now : Z) (g : Game) :
  let r := tickSession gameId now g in
  (status g ≠ playing ∧ r.1 = g)
  ∨ (status g = playing
     ∧ ∃ g2, g2 = set_lastMoveTime now
                    (if isWhite (currentPlayer g)
                     then set_whiteTime
                            (Z.max 0 (whiteTime g - (now - lastMoveTime g))) g
                     else set_blackTime
                            (Z.max 0 (blackTime g - (now - lastMoveTime g))) g)
         ∧ ((r.1 = g2 ∧ 0 < whiteTime g2 ∧ 0 < blackTime g2)
            ∨ (r.1 = set_status time_out g2
               ∧ (whiteTime g2 ≤ 0 ∨ blackTime g2 ≤ 0)))).
Proof.
  simpl. unfold tickSession. case_bool_decide as Hp; [|by left].
  right. split; [done|]. eexists. split; [reflexivity|].
  match goal with |- context [set_lastMoveTime now ?x] =>
    remember (set_lastMoveTime now x) as g2 eqn:Hg2 end.
  destruct (whiteTime g2 <=? 0) eqn:Ew; simpl.
  { right. split; [done|]. left. by apply Z.leb_le. }
  destruct (blackTime g2 <=? 0) eqn:Eb; simpl.
  { right. split; [done|]. right. by apply Z.leb_le. }
  left. apply Z.leb_gt in Ew, Eb. done.
Qed.

(** [Game.makeMove] never touches the id, the two players or the
    spectators. *)
Lemma makeMove_ids (g : Game) (fromRow fromCol toRow toCol : Num)
    (playerId : string) (now : Z) :
  let g' := (makeMove fromRow fromCol toRow toCol playerId now g).2 in
  game_id g' = game_id g ∧ white g' = white g ∧ black g' = black g
  ∧ spectators g' = spectators g.
Proof.
  pose proof (makeMove_frame g fromRow fromCol toRow toCol playerId now)
    as (? & ? & ? & _ & ?).
  done.
Qed.

(** The cells keep their shape under a write at any coordinates. *)
Lemma writeCell_wf (g : Game) (row col : Num) (v : option Piece) :
  wf_board (board g) → wf_board (board (writeCell g row col v)).
Proof.
  intros Hb. destruct row as [r|? ?]; [|done].
  destruct col as [c|? ?]; simpl; [by apply boardSet_wf|done].
Qed.

(** Only [makeMove] requests end with a throw. *)
Lemma applyOp_live (gameId : string) (op : SessionOp) (g : Game) :
  (∀ sid fr fc tr tc now, op ≠ op_makeMove sid fr fc tr tc now) →
  crashed (applyOp gameId op g).2 = false.
Proof.
  intros Hop.
  destruct op as [sid fr fc tr tc now|sid player| |sid|sid player|sid|now];
    simpl; try done.
  - by destruct (Hop sid fr fc tr tc now).
  - unfold resignSession. by destruct (negb _ && negb _).
  - destruct (_ || _); [|done]. by destruct player.
  - unfold tickSession. destruct (bool_decide _); [|done].
    by destruct (_ || _).
Qed.

(** No operation changes who plays the session or under which id. *)
Lemma applyOp_identity (gameId : string) (op : SessionOp) (g : Game) :
  let g' := (applyOp gameId op g).1 in
  game_id g' = game_id g ∧ white g' = white g ∧ black g' = black g.
Proof.
  destruct op as [sid fr fc tr tc now|sid player| |sid|sid player|sid|now];
    simpl; try done.
  - pose proof (makeMove_ids g fr fc tr tc sid now) as (Hi & Hw & Hb & _).
    destruct (moveSession_cases sid gameId fr fc tr tc now g)
      as [[-> _]|[[_ ->]|(m & g1 & E & _ & [[-> _]|[-> _]])]];
      [done|done|..]; rewrite E in Hi, Hw, Hb; done.
  - unfold resignSession. by destruct (negb _ && negb _).
  - destruct (tickSession_cases gameId now g)
      as [[_ ->]|(_ & g2 & -> & [[-> _]|[-> _]])]; [done|..];
      by destruct (isWhite (currentPlayer g)).
Qed.

(** Every operation that does not throw keeps [session_ok]. *)
Lemma applyOp_session_ok (gameId : string) (op : SessionOp) (g : Game) :
  session_ok gameId g →
  crashed (applyOp gameId op g).2 = false →
  session_ok gameId (applyOp gameId op g).1.
Proof.
  intros (Hid & Hne & Hb & Hc & Hcm & Hpl) Hlive.
  pose proof (applyOp_identity gameId op g) as (Hi' & Hw' & Hb').
  simpl in Hi', Hw', Hb'.
  unfold session_ok. rewrite Hi', Hw', Hb'.
  split; [done|]. split; [done|].
  destruct op as [sid fr fc tr tc now|sid player| |sid|sid player|sid|now];
    simpl in *.
  - destruct (moveSession_cases sid gameId fr fc tr tc now g)
      as [[-> _]|[[_ Ht]|(m & g1 & E & _ & Hcase)]]; [done| |].
    { rewrite Ht in Hlive. done. }
    apply makeMove_Some in E
      as (_ & Hs & _ & _ & _ & _ & _ & _ & piece & _ & _ & _ & Hbd & _).
    assert (wf_board (board g1)).
    { rewrite Hbd. by apply writeCell_wf, writeCell_wf. }
    destruct Hcase as [(-> & ? & ?)|[-> _]]; simpl.
    + rewrite Hs. split_and!; done.
    + split_and!; done.
  - unfold resignSession. destruct (negb _ && negb _); simpl; split_and!; done.
  - split_and!; done.
  - split_and!; done.
  - split_and!; done.
  - split_and!; done.
  - destruct (tickSession_cases gameId now g)
      as [[_ ->]|(Hp & g2 & Hg2 & Hcase)]; [done|].
    assert (board g2 = board g ∧ status g2 = status g) as [Hbd Hs].
    { subst g2. by destruct (isWhite (currentPlayer g)). }
    destruct Hcase as [(-> & ? & ?)|[-> _]]; simpl.
    + rewrite Hbd, Hs. split_and!; done.
    + rewrite Hbd. split_and!; done.
Qed.

Lemma Map_get_set {V} (k k' : string) (v : V) (m : list (string * V)) :
  Map_get k' (Map_set k v m)
  = if decide (k = k') then Some v else Map_get k' m.
Proof.
  case_decide as E.
  - subst. apply Map_get_set_eq.
  - by apply Map_get_set_ne.
Qed.

Lemma disconnect_get (st : Server) (sid gameId : string) :
  Map_get gameId (games (disconnect sid st).1)
  = (λ g, set_spectators (spectators g ∖ {[sid]}) g)
      <$> Map_get gameId (games st).
Proof.
  unfold disconnect. simpl. generalize (games st) as m.
  induction m as [|[k v] m IH]; simpl; [done|].
  by destruct (decide (k = gameId)).
Qed.

Lemma ticker_get (nowAt : string → Z) (st : Server) (gameId : string) :
  Map_get gameId (games (ticker nowAt st).1)
  = (λ g, (tickSession gameId (nowAt gameId) g).1)
      <$> Map_get gameId (games st).
Proof.
  unfold ticker. simpl. generalize (games st) as m.
  induction m as [|[k v] m IH]; [done|].
  cbn [fmap list_fmap Map_get option_fmap option_map fst snd].
  destruct (decide (k = gameId)) as [->|Hne].
  - destruct (tickSession gameId (nowAt gameId) v) as [v' effs] eqn:E.
    cbn [fst snd Map_get fmap option_fmap option_map].
    by rewrite decide_True, E.
  - destruct (tickSession k (nowAt k) v) as [v' effs].
    cbn [fst snd Map_get]. rewrite decide_False by done. apply IH.
Qed.

(** Where a registered session comes from: it was registered before and
    is unchanged or changed by one operation, or [findMatch] has just
    created it for the caller and a ticket that waited in the queue. *)
Lemma step_registry (i : Input) (st : Server) (gameId : string) (k : Game) :
  Map_get gameId (games (step i st).1) = Some k →
  (∃ g, Map_get gameId (games st) = Some g
        ∧ (k = g
           ∨ ∃ op, k = (applyOp gameId op g).1
                   ∧ (crashed (step i st).2 = false
                      → crashed (applyOp gameId op g).2 = false)))
  ∨ (∃ sid range coin now player opponent,
       i = in_findMatch sid range coin gameId now
       ∧ players st !! sid = Some player
       ∧ opponent ∈ removeWaiting sid (waitingPlayers st)
       ∧ k = newGame gameId (if coin then player else opponent)
                     (if coin then opponent else player) now).
Proof.
  destruct i as [sid name rating|sid range coin gid now
                |sid gid fr fc tr tc now|sid gid|sid gid
                |sid gid|sid gid|sid|n|nowAt]; cbn [step].
  - simpl. intros H. left. eauto.
  - unfold findMatch. destruct (players st !! sid) as [player|] eqn:Hp;
      [|simpl; intros H; left; by eauto].
    destruct (list_find _ _) as [[j opp]|] eqn:Hf; simpl;
      [|intros H; left; by eauto].
    rewrite Map_get_set. case_decide as E.
    + subst gid. intros [= <-]. right.
      exists sid, range, coin, now, player, opp. split_and!; try done.
      apply list_find_Some in Hf as (Hl & _).
      by eapply list_elem_of_lookup_2.
    + intros H. left. eauto.
  - unfold handleMakeMove.
    destruct (Map_get gid (games st)) as [g0|] eqn:Hg0;
      [|simpl; intros H; left; by eauto].
    destruct (players st !! sid); [|simpl; intros H; left; by eauto].
    destruct (moveSession sid gid fr fc tr tc now g0) as [g' effs] eqn:Em.
    simpl. rewrite Map_get_set. case_decide as E.
    + subst gid. intros [= <-]. left. exists g0. split; [done|]. right.
      exists (op_makeMove sid fr fc tr tc now). simpl. by rewrite Em.
    + intros H. left. eauto.
  - unfold spectateGame.
    destruct (Map_get gid (games st)) as [g0|] eqn:Hg0;
      [|simpl; intros H; left; by eauto].
    simpl. rewrite Map_get_set. case_decide as E.
    + subst gid. intros [= <-]. left. exists g0. split; [done|]. right.
      by exists (op_spectate sid).
    + intros H. left. eauto.
  - unfold resign.
    destruct (Map_get gid (games st)) as [g0|] eqn:Hg0;
      [|simpl; intros H; left; by eauto].
    destruct (players st !! sid) as [p|]; [|simpl; intros H; left; by eauto].
    destruct (resignSession sid gid p g0) as [g' effs] eqn:Em.
    simpl. rewrite Map_get_set. case_decide as E.
    + subst gid. intros [= <-]. left. exists g0. split; [done|]. right.
      exists (op_resign sid p). simpl. rewrite Em. split; [done|].
      intros _. pose proof (applyOp_live gameId (op_resign sid p) g0) as Hl.
      simpl in Hl. rewrite Em in Hl. by apply Hl.
    + intros H. left. eauto.
  - unfold offerDraw.
    destruct (Map_get gid (games st)); [|simpl; intros H; left; by eauto].
    destruct (players st !! sid); simpl; intros H; left; by eauto.
  - unfold acceptDraw.
    destruct (Map_get gid (games st)) as [g0|] eqn:Hg0;
      [|simpl; intros H; left; by eauto].
    simpl. rewrite Map_get_set. case_decide as E.
    + subst gid. intros [= <-]. left. exists g0. split; [done|]. right.
      by exists op_acceptDraw.
    + intros H. left. eauto.
  - rewrite disconnect_get.
    destruct (Map_get gameId (games st)) as [g0|]; [|done].
    simpl. intros [= <-]. left. exists g0. split; [done|]. right.
    exists (op_disconnect sid (players st !! sid)). split; [done|].
    intros _. by apply applyOp_live.
  - unfold fireTimer. destruct (timers st !! n) as [t|];
      [|simpl; intros H; left; by eauto].
    unfold disconnectTimeout. simpl.
    destruct (Map_get (timer_gameId t) (games st)) as [g0|];
      [|simpl; intros H; left; by eauto].
    simpl. destruct (decide (timer_gameId t = gameId)) as [<-|Hne].
    + by rewrite Map_get_delete_eq.
    + rewrite Map_get_delete_ne, Map_get_set_ne by done.
      intros H. left. eauto.
  - rewrite ticker_get.
    destruct (Map_get gameId (games st)) as [g0|]; [|done].
    simpl. intros [= <-]. left. exists g0. split; [done|]. right.
    exists (op_tick (nowAt gameId)). split; [done|].
    intros _. by apply applyOp_live.
Qed.

(** [session_ok] holds of every session registered in a state the server
    reaches. *)
Lemma reachable_session_ok (st : Server) :
  reachable st →
  ∀ gameId g, Map_get gameId (games st) = Some g → session_ok gameId g.
Proof.
  intros (ins & <- & Hlive).
  cut (wf_server (run ins emptyServer).1
       ∧ ∀ gameId g, Map_get gameId (games (run ins emptyServer).1) = Some g
                     → session_ok gameId g); [by intros [_ ?]|].
  apply (run_invariant_live
           (λ st, wf_server st
                  ∧ ∀ gameId g, Map_get gameId (games st) = Some g
                                → session_ok gameId g)); [| |done].
  - intros i st [Hwf IH] Hstep. split; [by apply step_wf|].
    intros gameId k Hk.
    destruct (step_registry i st gameId k Hk)
      as [(g & Hg & [->|(op & -> & Hop)])
         |(sid & range & coin & now & player & opp & _ & Hp & Ho & ->)].
    + by apply IH.
    + apply applyOp_session_ok; [by apply IH|by apply Hop].
    + destruct Hwf as [Hnd Hid].
      rewrite (removeWaiting_filter sid _ Hnd) in Ho.
      apply list_elem_of_filter in Ho as [Hne _].
      apply Hid in Hp.
      unfold session_ok. simpl. split; [done|]. split.
      * destruct coin; congruence.
      * split; [apply getInitialBoard_wf|]. split_and!; try done; lia.
  - split.
    + split; [constructor|]. intros sid p. simpl. by rewrite lookup_empty.
    + done.
Qed.

(** ** Invariants of registered sessions *)

(** X1. In every state the server reaches, the board of every registered
    session has eight rows of eight cells: no accepted move changes the
    shape, also when it stores the piece under a key that is not an index.
    So every pair of whole coordinates in [0,7] names an existing cell,
    and that cell is what [Game.makeMove] reads there. *)
Theorem reachable_board_shape (st : Server) (gameId : string) (g : Game) :
  reachable st →
  Map_get gameId (games st) = Some g →
  wf_board (board g)
  ∧ ∀ r c : Z, inBounds r → inBounds c →
      ∃ row cell, board g !! Z.to_nat r = Some row
                  ∧ row !! Z.to_nat c = Some cell
                  ∧ readCell g r c = Some cell.
Proof.
  intros Hr Hg.
  destruct (reachable_session_ok st Hr gameId g Hg)
    as (_ & _ & Hb & _).
  split; [done|]. intros r c Hrb Hcb. destruct Hb as [Hl Hrows].
  unfold inBounds in *.
  destruct (lookup_lt_is_Some_2 (board g) (Z.to_nat r)) as [row Hrow];
    [lia|].
  rewrite Forall_lookup in Hrows. pose proof (Hrows _ _ Hrow) as Hlen.
  destruct (lookup_lt_is_Some_2 row (Z.to_nat c)) as [cell Hcell]; [lia|].
  exists row, cell. split_and!; try done.
  cbn [readCell]. f_equal. unfold boardAt, Board in *.
  by rewrite Hrow, Hcell.
Qed.

(** The fixture after white's pawn went from e2 to row 4, column 4.5: the
    move is accepted, the pawn is off the cells, and the cells are still
    eight by eight. *)
Lemma reachable_board_shape_witness :
  let st := (handleMakeMove "a" "g" 6 4 4 (fraction 4 1) 1000 server0).1 in
  let g := (makeMove 6 4 4 (fraction 4 1) "a" 1000 game0).2 in
  reachable st
  ∧ Map_get "g" (games st) = Some g
  ∧ length (moves g) = 1%nat
  ∧ stray g !! (4, 4, 1%positive) = Some WP
  ∧ wf_board (board g).
Proof.
  assert (Hr : reachable
                 (handleMakeMove "a" "g" 6 4 4 (fraction 4 1) 1000
                                 server0).1).
  { apply (reachable_step (in_makeMove "a" "g" 6 4 4 (fraction 4 1) 1000)
             server0 server0_reachable).
    reflexivity. }
  split; [exact Hr|]. split; [reflexivity|]. split; [reflexivity|].
  split; [reflexivity|].
  exact (proj1 (reachable_board_shape _ "g" _ Hr eq_refl)).
Defined.

(** X2. The statuses [check] and [checkmate] that the type declares are
    never assigned: a registered session is [playing], [draw], [resigned],
    [time_out] or [disconnected]. *)
Theorem reachable_status_values (st : Server) (gameId : string) (g : Game) :
  reachable st →
  Map_get gameId (games st) = Some g →
  status g ∈ [playing; draw; resigned; time_out; disconnected].
Proof.
  intros Hr Hg.
  destruct (reachable_session_ok st Hr gameId g Hg)
    as (_ & _ & _ & Hc & Hcm & _).
  rewrite !elem_of_cons. destruct (status g); tauto.
Qed.

Lemma reachable_status_values_witness :
  reachable server0
  ∧ Map_get "g" (games server0) = Some game0
  ∧ status game0 ∈ [playing; draw; resigned; time_out; disconnected].
Proof.
  split; [exact server0_reachable|]. split; [reflexivity|].
  exact (reachable_status_values server0 "g" game0
           server0_reachable eq_refl).
Defined.

(** X3. A registered session that is still [playing] has time left on both
    clocks: as soon as a handler or the ticker sees a clock at or below
    zero the session is [time_out]. *)
Theorem reachable_playing_has_time (st : Server) (gameId : string)
    (g : Game) :
  reachable st →
  Map_get gameId (games st) = Some g →
  status g = playing →
  0 < whiteTime g ∧ 0 < blackTime g.
Proof.
  intros Hr Hg.
  by destruct (reachable_session_ok st Hr gameId g Hg)
    as (_ & _ & _ & _ & _ & Hp).
Qed.

Lemma reachable_playing_has_time_witness :
  reachable server0
  ∧ Map_get "g" (games server0) = Some game0
  ∧ status game0 = playing
  ∧ 0 < whiteTime game0 ∧ 0 < blackTime game0.
Proof.
  split; [exact server0_reachable|]. split; [reflexivity|].
  split; [reflexivity|].
  exact (reachable_playing_has_time server0 "g" game0
           server0_reachable eq_refl eq_refl).
Defined.

(** X4. A session is registered under its own id, and matchmaking never
    pairs a socket with itself: white and black of a registered session
    have different ids. *)
Theorem reachable_distinct_competitors (st : Server) (gameId : string)
    (g : Game) :
  reachable st →
  Map_get gameId (games st) = Some g →
  game_id g = gameId ∧ player_id (white g) ≠ player_id (black g).
Proof.
  intros Hr Hg.
  by destruct (reachable_session_ok st Hr gameId g Hg) as (? & ? & _).
Qed.

Lemma reachable_distinct_competitors_witness :
  reachable server0
  ∧ Map_get "g" (games server0) = Some game0
  ∧ game_id game0 = "g"
  ∧ player_id (white game0) ≠ player_id (black game0).
Proof.
  split; [exact server0_reachable|]. split; [reflexivity|].
  exact (reachable_distinct_competitors server0 "g" game0
           server0_reachable eq_refl).
Defined.

(** ** What an accepted move does *)

(** The record that an accepted [Game.makeMove] returns. *)
Lemma makeMove_record (g g' : Game) (fromRow fromCol toRow toCol : Num)
    (playerId : string) (now : Z) (m : Move) :
  makeMove fromRow fromCol toRow toCol playerId now g
  = (returned (Some m), g') →
  ∃ piece captured,
    readCell g fromRow fromCol = Some (Some piece)
    ∧ readCell g toRow toCol = Some captured
    ∧ m = {| move_from := (fromRow, fromCol);
             move_to := (toRow, toCol);
             move_piece := piece;
             move_captured := captured;
             move_timestamp := now;
             move_player := currentPlayer g |}.
Proof.
  intros H.
  apply makeMove_Some in H
    as (_ & _ & _ & _ & _ & _ & _ & _ & piece & Hr & Hc & Hm & _).
  by exists piece, (move_captured m).
Qed.

(** X5. An accepted move between two different squares of an 8x8 board
    puts the piece that stood on the origin on the destination, empties
    the origin and leaves every other square as it was. *)
Theorem accepted_move_board (g g' : Game) (fromRow fromCol toRow toCol : Z)
    (playerId : string) (now : Z) (m : Move) :
  makeMove fromRow fromCol toRow toCol playerId now g
  = (returned (Some m), g') →
  wf_board (board g) →
  (fromRow, fromCol) ≠ (toRow, toCol) →
  boardAt (board g) fromRow fromCol = Some (move_piece m)
  ∧ boardAt (board g') toRow toCol = Some (move_piece m)
  ∧ boardAt (board g') fromRow fromCol = None
  ∧ ∀ r c, inBounds r → inBounds c →
      (r, c) ≠ (fromRow, fromCol) → (r, c) ≠ (toRow, toCol) →
      boardAt (board g') r c = boardAt (board g) r c.
Proof.
  intros Hm Hwf Hne.
  assert (Hacc : acceptable g fromRow fromCol toRow toCol playerId).
  { apply (makeMove_is_Some g _ _ _ _ _ now). rewrite Hm. by eexists. }
  destruct Hacc as (Hfr & Hfc & Htr & Htc & _).
  apply makeMove_Some_whole in Hm as (-> & _ & Hp & _).
  unfold inBounds in *. rewrite Hp. split_and!.
  - done.
  - rewrite boardAt_boardSet_ne by (try lia; done).
    by apply boardAt_boardSet_eq.
  - apply boardAt_boardSet_eq; [by apply boardSet_wf|done..].
  - intros r c Hr Hc Hn1 Hn2.
    rewrite !boardAt_boardSet_ne by (try lia; done). done.
Qed.

Lemma accepted_move_board_witness :
  let r := makeMove 6 4 4 4 "a" 1000 game0 in
  boardAt (board game0) 6 4 = Some WP
  ∧ boardAt (board r.2) 4 4 = Some WP
  ∧ boardAt (board r.2) 6 4 = None.
Proof.
  assert (Hm : makeMove 6 4 4 4 "a" 1000 game0
               = (returned
                    (Some (mkMove (whole 6, whole 4) (whole 4, whole 4)
                                  WP None 1000 White)),
                  (makeMove 6 4 4 4 "a" 1000 game0).2)) by reflexivity.
  assert (Hne : (6, 4) ≠ (4, 4)) by discriminate.
  destruct (accepted_move_board game0 _ 6 4 4 4 "a" 1000 _ Hm
              getInitialBoard_wf Hne) as (H1 & H2 & H3 & _).
  exact (conj H1 (conj H2 H3)).
Defined.

(** X6. The destination is not compared with the origin: a request whose
    destination is its own origin square is accepted like any other, the
    piece is written and then erased, so the square ends up empty, every
    other square is unchanged and the turn passes. *)
Theorem move_onto_own_square_erases_piece (g : Game) (row col : Z)
    (playerId : string) (now : Z) :
  acceptable g row col row col playerId →
  wf_board (board g) →
  ∃ m g',
    makeMove row col row col playerId now g = (returned (Some m), g')
    ∧ boardAt (board g) row col = Some (move_piece m)
    ∧ boardAt (board g') row col = None
    ∧ (∀ r c, inBounds r → inBounds c → (r, c) ≠ (row, col) →
         boardAt (board g') r c = boardAt (board g) r c)
    ∧ currentPlayer g' = other (currentPlayer g).
Proof.
  intros Hacc Hwf.
  pose proof (proj2 (makeMove_is_Some g row col row col playerId now) Hacc)
    as [m Hm].
  destruct (makeMove row col row col playerId now g) as [[[mo|]|] g'] eqn:E;
    simpl in Hm; try discriminate.
  injection Hm as ->. exists m, g'. split; [done|].
  destruct Hacc as (Hr & Hc & _).
  pose proof (makeMove_Some _ _ _ _ _ _ _ _ _ E) as (Hcur & _).
  apply makeMove_Some_whole in E as (-> & _ & Hp & _).
  unfold inBounds in *. rewrite Hp. split_and!.
  - done.
  - apply boardAt_boardSet_eq; [by apply boardSet_wf|done..].
  - intros r c Hrb Hcb Hn.
    rewrite !boardAt_boardSet_ne by (try lia; done). done.
  - done.
Qed.

Lemma move_onto_own_square_erases_piece_witness :
  acceptable game0 6 4 6 4 "a"
  ∧ wf_board (board game0)
  ∧ ∃ m g',
      makeMove 6 4 6 4 "a" 1000 game0 = (returned (Some m), g')
      ∧ boardAt (board game0) 6 4 = Some (move_piece m)
      ∧ boardAt (board g') 6 4 = None
      ∧ (∀ r c, inBounds r → inBounds c → (r, c) ≠ (6, 4) →
           boardAt (board g') r c = boardAt (board game0) r c)
      ∧ currentPlayer g' = other (currentPlayer game0).
Proof.
  assert (Ha : acceptable game0 6 4 6 4 "a").
  { unfold acceptable, inBounds. split_and!; try lia.
    - exists WP. split; reflexivity.
    - reflexivity. }
  split; [exact Ha|]. split; [exact getInitialBoard_wf|].
  exact (move_onto_own_square_erases_piece game0 6 4 "a" 1000 Ha
           getInitialBoard_wf).
Defined.

(** X7. The move log is append-only: no operation on a session removes or
    rewrites an entry, and an accepted move appends exactly one record
    holding the two squares, the moved piece, what stood on the
    destination, the clock reading and the side that moved.  This holds
    for coordinates of any kind; on whole coordinates the origin and the
    destination are read from the cells. *)
Theorem move_log_append_only (gameId : string) (g : Game) :
  (∀ op, moves g `prefix_of` moves (applyOp gameId op g).1)
  ∧ (∀ fromRow fromCol toRow toCol playerId now m g',
       makeMove fromRow fromCol toRow toCol playerId now g
       = (returned (Some m), g') →
       moves g' = moves g ++ [m]
       ∧ move_from m = (fromRow, fromCol) ∧ move_to m = (toRow, toCol)
       ∧ readCell g fromRow fromCol = Some (Some (move_piece m))
       ∧ readCell g toRow toCol = Some (move_captured m)
       ∧ move_timestamp m = now ∧ move_player m = currentPlayer g)
  ∧ (∀ (fromRow fromCol toRow toCol : Z) playerId now m g',
       makeMove fromRow fromCol toRow toCol playerId now g
       = (returned (Some m), g') →
       boardAt (board g) fromRow fromCol = Some (move_piece m)
       ∧ move_captured m = boardAt (board g) toRow toCol).
Proof.
  split_and!.
  - intros op.
    destruct op as [sid fr fc tr tc now|sid player| |sid|sid player|sid|now];
      simpl; try done.
    + destruct (moveSession_cases sid gameId fr fc tr tc now g)
        as [[-> _]|[[Ht ->]|(m & g1 & E & _ & Hcase)]]; [done| |].
      { apply makeMove_threw_fields in Ht as (_ & Hm & _).
        simpl in *. by rewrite Hm. }
      apply makeMove_Some in E as (_ & _ & Hm & _).
      destruct Hcase as [[-> _]|[-> _]]; simpl; rewrite Hm;
        by apply prefix_app_r.
    + unfold resignSession. by destruct (negb _ && negb _).
    + destruct (tickSession_cases gameId now g)
        as [[_ ->]|(_ & g2 & -> & [[-> _]|[-> _]])]; [done|..];
        by destruct (isWhite (currentPlayer g)).
  - intros fr fc tr tc pid now m g' Hm.
    destruct (makeMove_record _ _ _ _ _ _ _ _ _ Hm)
      as (piece & captured & Hp & Hc & Heq).
    apply makeMove_Some in Hm as (_ & _ & Hmv & _).
    subst m. simpl in *. by rewrite Hp, Hc.
  - intros fr fc tr tc pid now m g' Hm.
    by apply makeMove_Some_whole in Hm as (_ & _ & ? & ? & _).
Qed.

Lemma move_log_append_only_witness :
  let r := makeMove 6 4 4 4 "a" 1000 game0 in
  moves r.2
  = moves game0
    ++ [mkMove (whole 6, whole 4) (whole 4, whole 4) WP None 1000 White].
Proof.
  assert (Hm : makeMove 6 4 4 4 "a" 1000 game0
               = (returned
                    (Some (mkMove (whole 6, whole 4) (whole 4, whole 4)
                                  WP None 1000 White)),
                  (makeMove 6 4 4 4 "a" 1000 game0).2)) by reflexivity.
  exact (proj1 (proj1 (proj2 (move_log_append_only "g" game0))
                  6 4 4 4 "a" 1000 _ _ Hm)).
Defined.

(** ** Clocks over several checkpoints *)

(** X8. As long as the clock readings do not run backwards, no operation
    gives a side time back: on a session whose clocks are positive while
    it is [playing], both remaining times can only stay or go down and the
    checkpoint time can only stay or go up. *)
Theorem clocks_never_increase (gameId : string) (op : SessionOp) (g : Game) :
  (status g = playing → 0 < whiteTime g ∧ 0 < blackTime g) →
  (∀ now, opTime op = Some now → lastMoveTime g ≤ now) →
  let g' := (applyOp gameId op g).1 in
  whiteTime g' ≤ whiteTime g
  ∧ blackTime g' ≤ blackTime g
  ∧ lastMoveTime g ≤ lastMoveTime g'.
Proof.
  intros Hpos Hnow.
  destruct op as [sid fr fc tr tc now|sid player| |sid|sid player|sid|now];
    simpl in *; try lia.
  - specialize (Hnow now eq_refl).
    destruct (moveSession_cases sid gameId fr fc tr tc now g)
      as [[-> _]|[[Ht ->]|(m & g1 & E & _ & Hcase)]]; [lia| |].
    { apply makeMove_threw_fields in Ht as (_ & _ & _ & _ & [-> | ->]);
        simpl; [lia|].
      unfold timeUpdated. destruct (isWhite (currentPlayer g)); simpl; lia. }
    apply makeMove_Some in E as (_ & _ & _ & Hl & Hw & Hb & _).
    assert (whiteTime g1 ≤ whiteTime g ∧ blackTime g1 ≤ blackTime g) as [??].
    { rewrite Hw, Hb. destruct (isWhite (currentPlayer g)); lia. }
    destruct Hcase as [[-> _]|[-> _]]; simpl; lia.
  - unfold resignSession. destruct (negb _ && negb _); simpl; lia.
  - specialize (Hnow now eq_refl).
    destruct (tickSession_cases gameId now g)
      as [[_ ->]|(Hp & g2 & Hg2 & Hcase)]; [lia|].
    destruct (Hpos Hp) as [Hw Hb].
    assert (whiteTime g2 ≤ whiteTime g ∧ blackTime g2 ≤ blackTime g
            ∧ lastMoveTime g2 = now) as (? & ? & ?).
    { subst g2. destruct (isWhite (currentPlayer g)); simpl; lia. }
    destruct Hcase as [[-> _]|[-> _]]; simpl; lia.
Qed.

Lemma clocks_never_increase_witness :
  (status game0 = playing → 0 < whiteTime game0 ∧ 0 < blackTime game0)
  ∧ (∀ now, opTime (op_tick 5000) = Some now → lastMoveTime game0 ≤ now)
  ∧ let g' := (applyOp "g" (op_tick 5000) game0).1 in
    whiteTime g' ≤ whiteTime game0
    ∧ blackTime g' ≤ blackTime game0
    ∧ lastMoveTime game0 ≤ lastMoveTime g'.
Proof.
  assert (H1 : status game0 = playing
               → 0 < whiteTime game0 ∧ 0 < blackTime game0)
    by (intros _; simpl; lia).
  assert (H2 : ∀ now, opTime (op_tick 5000) = Some now
                      → lastMoveTime game0 ≤ now)
    by (intros now [= <-]; simpl; lia).
  split; [exact H1|]. split; [exact H2|].
  exact (clocks_never_increase "g" (op_tick 5000) game0 H1 H2).
Defined.

(** X9. Ticker passes compose: on a session whose clocks are positive
    while it is [playing], a pass at time [t1] followed by a pass at a
    later time [t2] leaves the same remaining times and the same status as
    a single pass at [t2]; no interval is charged twice or skipped. *)
Theorem tick_twice_is_tick_once (gameId : string) (t1 t2 : Z) (g : Game) :
  (status g = playing → 0 < whiteTime g ∧ 0 < blackTime g) →
  lastMoveTime g ≤ t1 → t1 ≤ t2 →
  let g2 := (tickSession gameId t2 (tickSession gameId t1 g).1).1 in
  let g' := (tickSession gameId t2 g).1 in
  whiteTime g2 = whiteTime g' ∧ blackTime g2 = blackTime g'
  ∧ status g2 = status g' ∧ currentPlayer g2 = currentPlayer g'.
Proof.
  intros Hpos H1 H2. simpl.
  destruct (tickSession_cases gameId t2 g)
    as [[Hnp Hd]|(Hp & gd & Hgd & Hcased)].
  { destruct (tickSession_cases gameId t1 g)
      as [[_ ->]|(Hp & _)]; [|done]. by rewrite Hd. }
  destruct (Hpos Hp) as [Hw Hb].
  destruct (tickSession_cases gameId t1 g)
    as [[Hnp _]|(_ & ga & Hga & Hcasea)]; [done|].
  assert (Hfa : currentPlayer ga = currentPlayer g ∧ status ga = playing
                ∧ lastMoveTime ga = t1
                ∧ whiteTime ga = (if isWhite (currentPlayer g)
                                  then Z.max 0 (whiteTime g
                                                - (t1 - lastMoveTime g))
                                  else whiteTime g)
                ∧ blackTime ga = (if isWhite (currentPlayer g)
                                  then blackTime g
                                  else Z.max 0 (blackTime g
                                                - (t1 - lastMoveTime g)))).
  { subst ga. by destruct (isWhite (currentPlayer g)). }
  assert (Hfd : currentPlayer gd = currentPlayer g ∧ status gd = playing
                ∧ whiteTime gd = (if isWhite (currentPlayer g)
                                  then Z.max 0 (whiteTime g
                                                - (t2 - lastMoveTime g))
                                  else whiteTime g)
                ∧ blackTime gd = (if isWhite (currentPlayer g)
                                  then blackTime g
                                  else Z.max 0 (blackTime g
                                                - (t2 - lastMoveTime g)))).
  { subst gd. by destruct (isWhite (currentPlayer g)). }
  clear Hga Hgd.
  destruct Hfa as (Hca & Hsa & Hla & Hwa & Hba).
  destruct Hfd as (Hcd & Hsd & Hwd & Hbd).
  destruct Hcasea as [(Ea & Hwa' & Hba')|(Ea & Hza)]; rewrite Ea.
  - (* the first pass leaves the session playing *)
    destruct (tickSession_cases gameId t2 ga)
      as [[Hnp _]|(_ & gb & Hgb & Hcaseb)]; [done|].
    assert (Hfb : currentPlayer gb = currentPlayer g ∧ status gb = playing
                  ∧ whiteTime gb = whiteTime gd
                  ∧ blackTime gb = blackTime gd).
    { subst gb. rewrite Hca, Hla, Hwd, Hbd.
      destruct (isWhite (currentPlayer g)); simpl;
        rewrite ?Hwa, ?Hba, ?Hsa; split_and!; try done; lia. }
    clear Hgb. destruct Hfb as (Hcb & Hsb & Hwb & Hbb).
    destruct Hcaseb as [(-> & ? & ?)|(-> & Hzb)];
      destruct Hcased as [(-> & ? & ?)|(-> & Hzd)]; simpl;
      try (split_and!; congruence); lia.
  - (* the first pass ends the session *)
    destruct (tickSession_cases gameId t2 (set_status time_out ga))
      as [[_ ->]|(Hp' & _)]; [|done].
    simpl.
    destruct Hcased as [(-> & ? & ?)|(-> & Hzd)]; simpl.
    + destruct (isWhite (currentPlayer g)); lia.
    + rewrite Hwa, Hba, Hwd, Hbd, Hca, Hcd.
      destruct (isWhite (currentPlayer g)); split_and!; try done; lia.
Qed.

Lemma tick_twice_is_tick_once_witness :
  let g2 := (tickSession "g" 9000 (tickSession "g" 4000 game0).1).1 in
  let g' := (tickSession "g" 9000 game0).1 in
  whiteTime g2 = whiteTime g' ∧ blackTime g2 = blackTime g'
  ∧ status g2 = status g' ∧ currentPlayer g2 = currentPlayer g'.
Proof.
  refine (tick_twice_is_tick_once "g" 4000 9000 game0 _ _ _).
  - intros _. simpl. lia.
  - simpl. lia.
  - lia.
Defined.

(** ** Spectators and outsiders *)

Lemma spectateGame_registered (st : Server) (sid gameId : string) (g : Game) :
  Map_get gameId (games st) = Some g →
  spectateGame sid gameId st
  = (set_games
       (Map_set gameId (set_spectators ({[sid]} ∪ spectators g) g) (games st))
       st,
     [Join sid gameId;
      Emit (ToSocket sid)
        (spectatingStarted gameId
           (getGameState (set_spectators ({[sid]} ∪ spectators g) g)))]).
Proof. intros Hg. unfold spectateGame. by rewrite Hg. Qed.

(** X10. [spectateGame] on an unknown id only answers [spectateError] to
    the caller. On a registered session it adds the caller to the
    spectators and changes nothing else of the session; doing it again
    leaves the same state and sends the same events, so a socket is
    counted once. *)
Theorem spectateGame_only_adds_spectator (st : Server) (sid gameId : string) :
  (Map_get gameId (games st) = None →
     spectateGame sid gameId st = (st, [Emit (ToSocket sid) spectateError]))
  ∧ (∀ g, Map_get gameId (games st) = Some g →
       let r := spectateGame sid gameId st in
       let g' := set_spectators ({[sid]} ∪ spectators g) g in
       Map_get gameId (games r.1) = Some g'
       ∧ sid ∈ spectators g'
       ∧ r.2 = [Join sid gameId;
                Emit (ToSocket sid)
                  (spectatingStarted gameId (getGameState g'))]
       ∧ spectateGame sid gameId r.1 = r
       ∧ (sid ∈ spectators g → r.1 = st)).
Proof.
  split.
  - intros Hg. unfold spectateGame. by rewrite Hg.
  - intros g Hg. cbv zeta.
    rewrite (spectateGame_registered st sid gameId g Hg). cbn [fst snd].
    split; [simpl; apply Map_get_set_eq|].
    split; [simpl; apply elem_of_union_l; by apply elem_of_singleton|].
    split; [done|]. split.
    + erewrite spectateGame_registered by (simpl; apply Map_get_set_eq).
      simpl. rewrite Map_set_set.
      by rewrite (assoc_L (∪)), (idemp_L (∪)).
    + intros Hin.
      assert ({[sid]} ∪ spectators g = spectators g) as ->
        by by apply subseteq_union_1_L, singleton_subseteq_l.
      assert (set_spectators (spectators g) g = g) as -> by by destruct g.
      rewrite (Map_set_get_id _ _ _ Hg). by destruct st.
Qed.

Lemma spectateGame_only_adds_spectator_witness :
  Map_get "g" (games server0) = Some game0
  ∧ let r := spectateGame "s" "g" server0 in
    let g' := set_spectators ({["s"]} ∪ spectators game0) game0 in
    Map_get "g" (games r.1) = Some g'
    ∧ "s" ∈ spectators g'
    ∧ r.2 = [Join "s" "g";
             Emit (ToSocket "s") (spectatingStarted "g" (getGameState g'))]
    ∧ spectateGame "s" "g" r.1 = r
    ∧ ("s" ∈ spectators game0 → r.1 = server0).
Proof.
  split; [reflexivity|].
  exact (proj2 (spectateGame_only_adds_spectator server0 "s" "g")
           game0 eq_refl).
Defined.

(** The [makeMove] handler when [Game.makeMove] returns [false]. *)
Lemma handleMakeMove_None (st : Server) (sid gameId : string)
    (fromRow fromCol toRow toCol : Num) (now : Z) (g : Game) :
  Map_get gameId (games st) = Some g →
  (makeMove fromRow fromCol toRow toCol sid now g).1 = returned None →
  ∃ message,
    handleMakeMove sid gameId fromRow fromCol toRow toCol now st
    = (st, [Emit (ToSocket sid) (moveError message)]).
Proof.
  intros Hg Hm. unfold handleMakeMove, moveSession. rewrite Hg.
  destruct (players st !! sid) as [player|];
    [|by exists gameOrPlayerNotFound].
  pose proof (makeMove_None g fromRow fromCol toRow toCol sid now Hm) as Hn.
  destruct (makeMove fromRow fromCol toRow toCol sid now g) as [mo g1].
  simpl in *. subst mo g1. exists invalidMove.
  rewrite (Map_set_get_id _ _ _ Hg). by destruct st.
Qed.

(** X11. Watching gives no right to move: a socket that is neither white
    nor black of a session cannot change it through [makeMove], before or
    after it has joined as a spectator; each attempt leaves the server
    state as it is and is answered by [moveError] to that socket alone,
    whatever numbers the request carries. *)
Theorem outsider_cannot_move (st : Server) (sid gameId : string) (g : Game)
    (fromRow fromCol toRow toCol : Num) (now : Z) :
  Map_get gameId (games st) = Some g →
  ¬ competitor sid g →
  (∃ message,
     handleMakeMove sid gameId fromRow fromCol toRow toCol now st
     = (st, [Emit (ToSocket sid) (moveError message)]))
  ∧ let st1 := (spectateGame sid gameId st).1 in
    ∃ message,
      handleMakeMove sid gameId fromRow fromCol toRow toCol now st1
      = (st1, [Emit (ToSocket sid) (moveError message)]).
Proof.
  intros Hg Hc.
  assert (Hnw : bool_decide (player_id (white g) = sid) = false).
  { apply bool_decide_eq_false_2. intros ?. apply Hc. by left. }
  assert (Hnb : bool_decide (player_id (black g) = sid) = false).
  { apply bool_decide_eq_false_2. intros ?. apply Hc. by right. }
  assert (Hrej : ∀ g0, white g0 = white g → black g0 = black g →
            (makeMove fromRow fromCol toRow toCol sid now g0).1
            = returned None).
  { intros g0 Hw Hb. by rewrite makeMove_unfold, Hw, Hb, Hnw, Hnb. }
  split.
  - eapply handleMakeMove_None; [exact Hg|]. by apply Hrej.
  - simpl. eapply handleMakeMove_None.
    + unfold spectateGame. rewrite Hg. simpl. apply Map_get_set_eq.
    + by apply Hrej.
Qed.

Lemma outsider_cannot_move_witness :
  Map_get "g" (games server0) = Some game0
  ∧ ¬ competitor "s" game0
  ∧ ∃ message,
      handleMakeMove "s" "g" 6 4 4 4 1000 server0
      = (server0, [Emit (ToSocket "s") (moveError message)]).
Proof.
  assert (Hc : ¬ competitor "s" game0).
  { intros [H|H]; simpl in H; discriminate. }
  split; [reflexivity|]. split; [exact Hc|].
  exact (proj1 (outsider_cannot_move server0 "s" "g" game0 6 4 4 4 1000
                  eq_refl Hc)).
Defined.

(** ** Registration *)

(** X12. After [register] the directory holds, under the caller's socket
    id, a player with that id, a name that is never empty and a rating
    that is never zero: a given non-empty name and a given non-zero
    rating are kept, anything else is replaced by the default. Other
    directory entries, the queue and the sessions are untouched, so a
    ticket or a session of the same socket keeps the earlier name and
    rating. *)
Theorem register_directory (st : Server) (sid : string)
    (name : option string) (rating : option Z) :
  let r := register sid name rating st in
  (∃ p, players r.1 !! sid = Some p
        ∧ player_id p = sid
        ∧ player_name p ≠ EmptyString
        ∧ player_rating p ≠ 0
        ∧ (∀ n, name = Some n → n ≠ EmptyString → player_name p = n)
        ∧ (∀ x, rating = Some x → x ≠ 0 → player_rating p = x)
        ∧ (rating = None ∨ rating = Some 0 → player_rating p = 1500))
  ∧ (∀ sid', sid' ≠ sid → players r.1 !! sid' = players st !! sid')
  ∧ games r.1 = games st
  ∧ waitingPlayers r.1 = waitingPlayers st
  ∧ timers r.1 = timers st.
Proof.
  simpl. split.
  - eexists. split; [apply lookup_insert_eq|]. simpl. split; [done|].
    split_and!.
    + destruct name as [n|]; [|done]. case_bool_decide; done.
    + destruct rating as [x|]; [|done].
      destruct (x =? 0) eqn:E; [done|]. by apply Z.eqb_neq in E.
    + intros n -> Hn. by rewrite bool_decide_eq_false_2.
    + intros x -> Hx. apply Z.eqb_neq in Hx. by rewrite Hx.
    + by intros [-> | ->].
  - split; [|done]. intros sid' Hne. by apply lookup_insert_ne.
Qed.

Lemma register_directory_witness :
  let r := register "abcdefgh" (Some EmptyString) (Some 0) emptyServer in
  ∃ p, players r.1 !! "abcdefgh" = Some p
       ∧ player_id p = "abcdefgh"
       ∧ player_name p ≠ EmptyString
       ∧ player_rating p = 1500.
Proof.
  destruct (proj1 (register_directory emptyServer "abcdefgh"
                     (Some EmptyString) (Some 0)))
    as (p & H1 & H2 & H3 & _ & _ & _ & H7).
  exists p. split; [exact H1|]. split; [exact H2|]. split; [exact H3|].
  apply H7. by right.
Defined.

(** A socket that registers without a name is called after the last four
    characters of its id. *)
Example register_default_name :
  (player_name <$>
     players (register "abcdefgh" None None emptyServer).1 !! "abcdefgh")
  = Some ("Игрок_" +:+ "efgh").
Proof. reflexivity. Qed.

(** ** Draw offers *)

(** X13. [offerDraw] never changes the server state. In a state the server
    reaches, an offer by a competitor is delivered to the other
    competitor's socket and never back to the caller; an offer by a
    registered socket that is not a competitor is delivered to white. *)
Theorem offerDraw_recipient (st : Server) (sid gameId : string) (g : Game)
    (player : Player) :
  reachable st →
  Map_get gameId (games st) = Some g →
  players st !! sid = Some player →
  ∃ recipient,
    offerDraw sid gameId st
    = (st, [Emit (ToSocket recipient)
              (drawOffered gameId (player_name player))])
    ∧ (player_id (white g) = sid → recipient = player_id (black g))
    ∧ (player_id (black g) = sid → recipient = player_id (white g))
    ∧ (¬ competitor sid g → recipient = player_id (white g))
    ∧ (competitor sid g → recipient ≠ sid).
Proof.
  intros Hr Hg Hp.
  destruct (reachable_session_ok st Hr gameId g Hg) as (_ & Hne & _).
  unfold offerDraw. rewrite Hg, Hp. unfold competitor.
  case_bool_decide as Hw; eexists; (split; [reflexivity|]);
    intuition congruence.
Qed.

Lemma offerDraw_recipient_witness :
  reachable server0
  ∧ Map_get "g" (games server0) = Some game0
  ∧ players server0 !! "b" = Some bob
  ∧ ∃ recipient,
      offerDraw "b" "g" server0
      = (server0, [Emit (ToSocket recipient)
                     (drawOffered "g" (player_name bob))])
      ∧ (player_id (white game0) = "b" → recipient = player_id (black game0))
      ∧ (player_id (black game0) = "b" → recipient = player_id (white game0))
      ∧ (¬ competitor "b" game0 → recipient = player_id (white game0))
      ∧ (competitor "b" game0 → recipient ≠ "b").
Proof.
  split; [exact server0_reachable|]. split; [reflexivity|].
  split; [reflexivity|].
  exact (offerDraw_recipient server0 "b" "g" game0 bob
           server0_reachable eq_refl eq_refl).
Defined.

(** ** Disconnecting *)

(** X14. When a socket disconnects in a state the server reaches, its
    directory entry is deleted, no ticket of it is left in the queue while
    the other tickets keep their order, it is no longer a spectator of any
    session, and every session keeps its board, move log, clocks, side to
    move, status and players. *)
Theorem disconnect_forgets_socket (st : Server) (sid : string) :
  reachable st →
  let st' := (disconnect sid st).1 in
  players st' !! sid = None
  ∧ (∀ sid', sid' ≠ sid → players st' !! sid' = players st !! sid')
  ∧ waitingPlayers st' = filter (λ p, player_id p ≠ sid) (waitingPlayers st)
  ∧ (sid ∉ (player_id <$> waitingPlayers st'))
  ∧ ∀ gameId,
      Map_get gameId (games st')
      = (λ g, set_spectators (spectators g ∖ {[sid]}) g)
          <$> Map_get gameId (games st)
      ∧ ∀ g', Map_get gameId (games st') = Some g' → sid ∉ spectators g'.
Proof.
  intros Hr. apply reachable_wf in Hr as [Hnd _]. cbv zeta.
  assert (Hw : waitingPlayers (disconnect sid st).1
               = filter (λ p, player_id p ≠ sid) (waitingPlayers st)).
  { simpl. by apply removeWaiting_filter. }
  split; [simpl; apply lookup_delete_eq|].
  split; [intros sid' Hne; simpl; by apply lookup_delete_ne|].
  split; [done|]. split.
  - rewrite Hw. intros (p & Hp & Hin)%list_elem_of_fmap.
    apply list_elem_of_filter in Hin as [Hne _]. by apply Hne.
  - intros gameId. rewrite disconnect_get. split; [done|].
    intros g' Hg'. destruct (Map_get gameId (games st)) as [g|]; [|done].
    simpl in Hg'. injection Hg' as <-. simpl.
    intros Hin. apply elem_of_difference in Hin as [_ Hin].
    apply Hin. by apply elem_of_singleton.
Qed.

Lemma disconnect_forgets_socket_witness :
  reachable queue0
  ∧ let st' := (disconnect "a" queue0).1 in
    players st' !! "a" = None
    ∧ waitingPlayers st' = filter (λ p, player_id p ≠ "a")
                                  (waitingPlayers queue0)
    ∧ ("a" ∉ (player_id <$> waitingPlayers st')).
Proof.
  split; [exact queue0_reachable|].
  destruct (disconnect_forgets_socket queue0 "a" queue0_reachable)
    as (H1 & _ & H3 & H4 & _).
  exact (conj H1 (conj H3 H4)).
Defined.

(** X15. The deferred callback ends a session at most once: after it has
    fired for a session, a second callback for the same session id, for
    whichever socket, finds the id gone and does nothing. When both
    competitors disconnect, the callback that fires first names the
    winner. *)
Theorem second_timeout_is_noop (st : Server) (sid1 sid2 gameId : string)
    (g : Game) :
  Map_get gameId (games st) = Some g →
  let r1 := disconnectTimeout sid1 gameId st in
  length r1.2 = 1%nat
  ∧ disconnectTimeout sid2 gameId r1.1 = (r1.1, []).
Proof.
  intros Hg. simpl. unfold disconnectTimeout at 1 3 4.
  rewrite Hg. simpl. split; [done|].
  unfold disconnectTimeout. simpl. by rewrite Map_get_delete_eq.
Qed.

Lemma second_timeout_is_noop_witness :
  Map_get "g" (games server0) = Some game0
  ∧ let r1 := disconnectTimeout "a" "g" server0 in
    length r1.2 = 1%nat
    ∧ disconnectTimeout "b" "g" r1.1 = (r1.1, []).
Proof.
  split; [reflexivity|].
  exact (second_timeout_is_noop server0 "a" "b" "g" game0 eq_refl).
Defined.

(** ** What matchmaking tells the players *)

(** X16. In a state the server reaches, [findMatch] by a registered player
    has one of two outcomes. Either the caller's ticket is the last of the
    queue and the caller alone is told [waitingForMatch] with its position,
    the length of the queue, and an estimated wait of 30 times that; or
    the caller and a ticket that waited are paired: both sockets join the
    room of the new session, white is told [gameFound] with colour white
    and black's name and rating, black with colour black and white's,
    [gameCreated] goes to everybody, and neither of the two is left in the
    queue. *)
Theorem findMatch_outcome (st : Server) (sid : string)
    (ratingRange : option Z) (isPlayerWhite : bool) (gameId : string)
    (now : Z) (player : Player) :
  reachable st →
  players st !! sid = Some player →
  let r := findMatch sid ratingRange isPlayerWhite gameId now st in
  (last (waitingPlayers r.1) = Some player
   ∧ games r.1 = games st
   ∧ r.2 = [Emit (ToSocket sid)
              (waitingForMatch (Z.of_nat (length (waitingPlayers r.1)))
                 (Z.of_nat (length (waitingPlayers r.1)) * 30))])
  ∨ (∃ opponent,
       opponent ∈ waitingPlayers st
       ∧ player_id opponent ≠ sid
       ∧ (sid ∉ (player_id <$> waitingPlayers r.1))
       ∧ (player_id opponent ∉ (player_id <$> waitingPlayers r.1))
       ∧ let w := if isPlayerWhite then player else opponent in
         let b := if isPlayerWhite then opponent else player in
         let game := newGame gameId w b now in
         r.2 = [Join (player_id w) gameId;
                Join (player_id b) gameId;
                Emit (ToSocket (player_id w))
                  (gameFound gameId White (player_name b) (player_rating b)
                             (getGameState game));
                Emit (ToSocket (player_id b))
                  (gameFound gameId Black (player_name w) (player_rating w)
                             (getGameState game));
                Emit ToAll (gameCreated (summary game))]).
Proof.
  intros Hr Hp. apply reachable_wf in Hr as [Hnd Hid]. cbv zeta.
  unfold findMatch. rewrite Hp.
  rewrite (removeWaiting_filter sid _ Hnd).
  set (queue := filter (λ p, player_id p ≠ sid) (waitingPlayers st)).
  assert (Hq : NoDup (player_id <$> queue)).
  { eapply sublist_NoDup; [exact Hnd|]. apply fmap_sublist, sublist_filter. }
  assert (Hqs : ∀ p, p ∈ queue → player_id p ≠ sid ∧ p ∈ waitingPlayers st).
  { intros p Hin. by apply list_elem_of_filter in Hin. }
  destruct (list_find _ queue) as [[i opponent]|] eqn:E; cbn [fst snd].
  - right. apply list_find_split in E as (Hsplit & Hd & _ & _).
    assert (Hin : opponent ∈ queue).
    { rewrite Hsplit. apply elem_of_app. right. apply elem_of_cons. by left. }
    destruct (Hqs _ Hin) as [Hne Hw].
    exists opponent. split; [done|]. split; [done|].
    cbn [waitingPlayers set_games set_waitingPlayers]. rewrite Hd.
    rewrite Hsplit, fmap_app, fmap_cons in Hq.
    apply NoDup_app in Hq as (_ & Hdisj & Hq2).
    apply NoDup_cons in Hq2 as [Hnotin _].
    split; [|split; [|done]].
    + intros (p & Hp1 & Hp2)%list_elem_of_fmap.
      assert (p ∈ queue) as Hpq.
      { rewrite Hsplit. apply elem_of_app in Hp2 as [?|?];
          apply elem_of_app; [by left|right; apply elem_of_cons; by right]. }
      destruct (Hqs _ Hpq) as [? _]. congruence.
    + rewrite fmap_app. intros [Hl|Hl]%elem_of_app.
      * apply (Hdisj _ Hl). apply elem_of_cons. by left.
      * done.
  - left. cbn [waitingPlayers set_waitingPlayers games].
    split; [apply last_snoc|]. done.
Qed.

Lemma findMatch_outcome_witness :
  reachable queue0
  ∧ players queue0 !! "b" = Some bob
  ∧ let r := findMatch "b" None false "g" 0 queue0 in
    (last (waitingPlayers r.1) = Some bob
     ∧ games r.1 = games queue0
     ∧ r.2 = [Emit (ToSocket "b")
                (waitingForMatch (Z.of_nat (length (waitingPlayers r.1)))
                   (Z.of_nat (length (waitingPlayers r.1)) * 30))])
    ∨ (∃ opponent,
         opponent ∈ waitingPlayers queue0
         ∧ player_id opponent ≠ "b"
         ∧ ("b" ∉ (player_id <$> waitingPlayers r.1))
         ∧ (player_id opponent ∉ (player_id <$> waitingPlayers r.1))
         ∧ let w := if false then bob else opponent in
           let b := if false then opponent else bob in
           let game := newGame "g" w b 0 in
           r.2 = [Join (player_id w) "g";
                  Join (player_id b) "g";
                  Emit (ToSocket (player_id w))
                    (gameFound "g" White (player_name b) (player_rating b)
                               (getGameState game));
                  Emit (ToSocket (player_id b))
                    (gameFound "g" Black (player_name w) (player_rating w)
                               (getGameState game));
                  Emit ToAll (gameCreated (summary game))]).
Proof.
  split; [exact queue0_reachable|]. split; [reflexivity|].
  exact (findMatch_outcome queue0 "b" None false "g" 0 bob
           queue0_reachable eq_refl).
Defined.

(** ** What a ticker pass sends *)


(** ** The client's own move check *)

Lemma client_isWhitePiece_Some (p : Piece) :
  Client.isWhitePiece (Some p) = isWhitePiece p.
Proof. reflexivity. Qed.
Lemma client_isBlackPiece_Some (p : Piece) :
  Client.isBlackPiece (Some p) = isBlackPiece p.
Proof. reflexivity. Qed.

(** The ownership test of the client: a cell holds a piece of side [c]. *)
Lemma client_owner_test (c : Color) (cell : option Piece) :
  (isWhite c && Client.isWhitePiece cell)
  || (isBlack c && Client.isBlackPiece cell) = true
  ↔ ∃ p, cell = Some p ∧ belongsTo p c.
Proof.
  destruct cell as [p|].
  - destruct c, p; vm_compute; split;
      first [ intros _; eexists; split; reflexivity
            | intros H; try discriminate H;
              destruct H as (q & [= <-] & Hq); discriminate Hq
            | intros; reflexivity ].
  - destruct c; simpl; split; try discriminate; by intros (p & [=] & _).
Qed.

(** When the page's [isValidMove] allows a move. *)
Lemma client_isValidMove_iff (v : Client.View)
    (fromRow fromCol toRow toCol : Z) :
  Client.isValidMove v fromRow fromCol toRow toCol = true
  ↔ (∃ piece, boardAt (Client.board v) fromRow fromCol = Some piece
              ∧ belongsTo piece (Client.currentPlayer v))
    ∧ (∀ q, boardAt (Client.board v) toRow toCol = Some q
            → ¬ belongsTo q (Client.currentPlayer v)).
Proof.
  unfold Client.isValidMove.
  pose proof (client_owner_test (Client.currentPlayer v)
                (boardAt (Client.board v) fromRow fromCol)) as Ho.
  pose proof (client_owner_test (Client.currentPlayer v)
                (boardAt (Client.board v) toRow toCol)) as Hd.
  destruct (boardAt (Client.board v) fromRow fromCol) as [piece|] eqn:Ep.
  2:{ split; [done|]. by intros [(p & [=] & _) _]. }
  destruct ((isWhite (Client.currentPlayer v)
             && Client.isWhitePiece (Some piece))
            || (isBlack (Client.currentPlayer v)
                && Client.isBlackPiece (Some piece))) eqn:Eo; simpl.
  2:{ split; [done|]. intros [(p & Hp & Hb) _].
      assert (false = true) by (apply Ho; eauto). done. }
  destruct (proj1 Ho eq_refl) as (p & [= <-] & Hpb).
  destruct (boardAt (Client.board v) toRow toCol) as [q|] eqn:Eq.
  2:{ split; [|done]. intros _. split; [by eauto|]. by intros q' [=]. }
  destruct ((isWhite (Client.currentPlayer v)
             && Client.isWhitePiece (Some q))
            || (isBlack (Client.currentPlayer v)
                && Client.isBlackPiece (Some q))) eqn:Ed.
  - split; [done|]. intros [_ Hq].
    destruct (proj1 Hd eq_refl) as (q' & [= <-] & Hqb).
    by destruct (Hq q eq_refl).
  - split; [|done]. intros _. split; [by eauto|].
    intros q' [= <-] Hqb.
    assert (false = true) by (apply Hd; eauto). done.
Qed.

(** X18. The page's [isValidMove] allows a move exactly when the origin
    holds a piece of the side to move and the destination does not hold a
    piece of that side. Every move it allows, between squares of the
    board, is accepted by the server's [Game.makeMove] when sent by the
    competitor to move on the same board; the server's check is the
    weaker one. *)
Theorem client_valid_move (v : Client.View) (fromRow fromCol toRow toCol : Z) :
  (Client.isValidMove v fromRow fromCol toRow toCol = true
   ↔ (∃ piece, boardAt (Client.board v) fromRow fromCol = Some piece
               ∧ belongsTo piece (Client.currentPlayer v))
     ∧ (∀ q, boardAt (Client.board v) toRow toCol = Some q
             → ¬ belongsTo q (Client.currentPlayer v)))
  ∧ (∀ g playerId now,
       Client.board v = board g →
       Client.currentPlayer v = currentPlayer g →
       inBounds fromRow → inBounds fromCol →
       inBounds toRow → inBounds toCol →
       player_id (playerToMove g) = playerId →
       Client.isValidMove v fromRow fromCol toRow toCol = true →
       is_Some
         (moveOf (makeMove fromRow fromCol toRow toCol playerId now g).1)).
Proof.
  split; [apply client_isValidMove_iff|].
  intros g playerId now Hb Hc Hfr Hfc Htr Htc Hp Hv.
  apply makeMove_is_Some.
  apply client_isValidMove_iff in Hv as [(piece & Hpc & Hbel) _].
  rewrite Hb, Hc in *. unfold acceptable. split_and!; try done.
  by exists piece.
Qed.

Lemma client_valid_move_witness :
  let v := Client.mkView (board game0) None (currentPlayer game0) None in
  Client.isValidMove v 6 4 4 4 = true
  ∧ is_Some (moveOf (makeMove 6 4 4 4 "a" 1000 game0).1).
Proof.
  split; [reflexivity|].
  refine (proj2 (client_valid_move
                   (Client.mkView (board game0) None (currentPlayer game0)
                                  None) 6 4 4 4)
            game0 "a" 1000 eq_refl eq_refl _ _ _ _ eq_refl eq_refl);
    unfold inBounds; lia.
Defined.

(** The page refuses the capture that the server accepts: white's rook on
    white's pawn on the initial board. *)
Example client_refuses_own_capture :
  Client.isValidMove
    (Client.mkView (board game0) None (currentPlayer game0) None) 7 0 6 0
  = false
  ∧ is_Some (moveOf (makeMove 7 0 6 0 "a" 1000 game0).1).
Proof. split; [reflexivity|]. vm_compute. eauto. Qed.

(** ** Clicks on the board *)

(** X19. Offline play, with a square selected and a click on a square of
    an 8x8 board: nothing is sent to the server and the selection is
    cleared. If the click is on another square and [isValidMove] allows
    the move, the piece goes from the selected square to the clicked one,
    every other square is unchanged, in particular no piece of the side
    that moves is taken, the turn passes and the move is remembered as
    the last move; otherwise board, turn and last move stay as they
    are. *)
Theorem offline_click (currentGame : option GameState)
    (playerColor : option Color) (v : Client.View)
    (selectedRow selectedCol row col : Z) :
  currentGame = None ∨ playerColor = None →
  Client.selectedSquare v = Some (selectedRow, selectedCol) →
  wf_board (Client.board v) →
  inBounds selectedRow → inBounds selectedCol →
  inBounds row → inBounds col →
  let r := Client.handleSquareClick currentGame playerColor row col v in
  r.2 = []
  ∧ Client.selectedSquare r.1 = None
  ∧ ((selectedRow, selectedCol) ≠ (row, col)
     ∧ Client.isValidMove v selectedRow selectedCol row col = true →
       boardAt (Client.board r.1) row col
       = boardAt (Client.board v) selectedRow selectedCol
       ∧ boardAt (Client.board r.1) selectedRow selectedCol = None
       ∧ (∀ r0 c0, inBounds r0 → inBounds c0 →
            (r0, c0) ≠ (selectedRow, selectedCol) → (r0, c0) ≠ (row, col) →
            boardAt (Client.board r.1) r0 c0
            = boardAt (Client.board v) r0 c0)
       ∧ (∀ r0 c0 q, inBounds r0 → inBounds c0 →
            (r0, c0) ≠ (selectedRow, selectedCol) →
            boardAt (Client.board v) r0 c0 = Some q →
            belongsTo q (Client.currentPlayer v) →
            boardAt (Client.board r.1) r0 c0 = Some q)
       ∧ Client.currentPlayer r.1 = other (Client.currentPlayer v)
       ∧ Client.lastMove r.1 = Some (selectedRow, selectedCol, row, col))
  ∧ ((selectedRow, selectedCol) = (row, col)
     ∨ Client.isValidMove v selectedRow selectedCol row col = false →
       Client.board r.1 = Client.board v
       ∧ Client.currentPlayer r.1 = Client.currentPlayer v
       ∧ Client.lastMove r.1 = Client.lastMove v).
Proof.
  intros Hoff Hsel Hwf Hsr Hsc Hr Hc. cbv zeta.
  assert (Heq : Client.handleSquareClick currentGame playerColor row col v
    = if (selectedRow =? row) && (selectedCol =? col) then
        (Client.setSelectedSquare None v, [])
      else if Client.isValidMove v selectedRow selectedCol row col then
        (Client.mkView
           (boardSet (boardSet (Client.board v) row col
                        (boardAt (Client.board v) selectedRow selectedCol))
                     selectedRow selectedCol None)
           None (other (Client.currentPlayer v))
           (Some (selectedRow, selectedCol, row, col)), [])
      else (Client.setSelectedSquare None v, [])).
  { unfold Client.handleSquareClick. rewrite Hsel.
    destruct Hoff as [-> | ->]; [done|]. by destruct currentGame. }
  rewrite Heq. clear Heq.
  destruct ((selectedRow =? row) && (selectedCol =? col)) eqn:Esame.
  { apply andb_true_iff in Esame as [E1%Z.eqb_eq E2%Z.eqb_eq]. subst.
    split; [done|]. split; [done|]. split; [by intros [? _]|done]. }
  assert (Hne : (selectedRow, selectedCol) ≠ (row, col)).
  { intros [= -> ->]. by rewrite !Z.eqb_refl in Esame. }
  destruct (Client.isValidMove v selectedRow selectedCol row col) eqn:Ev.
  2:{ split; [done|]. split; [done|]. split; [by intros [_ ?]|done]. }
  split; [done|]. split; [done|]. split.
  2:{ intros [?|?]; done. }
  intros _. cbn [fst Client.board Client.currentPlayer Client.lastMove].
  unfold inBounds in *.
  assert (Hframe : ∀ r0 c0, inBounds r0 → inBounds c0 →
            (r0, c0) ≠ (selectedRow, selectedCol) → (r0, c0) ≠ (row, col) →
            boardAt (boardSet (boardSet (Client.board v) row col
                        (boardAt (Client.board v) selectedRow selectedCol))
                     selectedRow selectedCol None) r0 c0
            = boardAt (Client.board v) r0 c0).
  { intros r0 c0 Hr0 Hc0 Hn1 Hn2. unfold inBounds in *.
    rewrite !boardAt_boardSet_ne by (try lia; done). done. }
  split_and!; try done.
  - rewrite boardAt_boardSet_ne by (try lia; done).
    by apply boardAt_boardSet_eq.
  - apply boardAt_boardSet_eq; [by apply boardSet_wf|done..].
  - intros r0 c0 q Hr0 Hc0 Hn1 Hq Hbel.
    rewrite Hframe; [done..|].
    intros [= -> ->].
    apply client_isValidMove_iff in Ev as [_ Hd].
    by apply (Hd q).
Qed.

Lemma offline_click_witness :
  let v := Client.mkView getInitialBoard (Some (6, 4)) White None in
  let r := Client.handleSquareClick None None 4 4 v in
  r.2 = []
  ∧ Client.selectedSquare r.1 = None
  ∧ boardAt (Client.board r.1) 4 4 = Some WP
  ∧ boardAt (Client.board r.1) 6 4 = None
  ∧ Client.currentPlayer r.1 = Black.
Proof.
  assert (Hb : ∀ x, x = 6 ∨ x = 4 → inBounds x)
    by (intros x [-> | ->]; unfold inBounds; lia).
  destruct (offline_click None None
              (Client.mkView getInitialBoard (Some (6, 4)) White None)
              6 4 4 4 (or_introl eq_refl) eq_refl getInitialBoard_wf
              (Hb 6 (or_introl eq_refl)) (Hb 4 (or_intror eq_refl))
              (Hb 4 (or_intror eq_refl)) (Hb 4 (or_intror eq_refl)))
    as (H1 & H2 & H3 & _).
  assert (Hne : (6, 4) ≠ (4, 4)) by discriminate.
  destruct (H3 (conj Hne eq_refl)) as (H4 & H5 & _ & _ & H6 & _).
  exact (conj H1 (conj H2 (conj H4 (conj H5 H6)))).
Defined.

(** X20. Online play on a snapshot of the session: starting with no square
    selected, two clicks on squares of the board hand a [makeMove] intent
    to the hook exactly when the first square holds a piece of the
    player's colour, it is the player's turn and the second square is a
    different one; the intent carries the session id and the two squares,
    and the clicks never change the local board.  What the server does
    with the intent depends on the socket it arrives on: [Game.makeMove]
    accepts these coordinates when it is called with the id the session
    holds for that colour, and the [makeMove] handler changes nothing and
    answers [moveError] when the socket is not in the directory of
    registered players. *)
Theorem online_click_sends_move (g : Game) (color : Color)
    (v : Client.View) (r1 c1 r2 c2 : Z) :
  Client.board v = board g →
  Client.selectedSquare v = None →
  inBounds r1 → inBounds c1 → inBounds r2 → inBounds c2 →
  let gs := getGameState g in
  let s1 := Client.handleSquareClick (Some gs) (Some color) r1 c1 v in
  let s2 := Client.handleSquareClick (Some gs) (Some color) r2 c2 s1.1 in
  let entered :=
    (∃ p, boardAt (board g) r1 c1 = Some p ∧ belongsTo p color)
    ∧ currentPlayer g = color ∧ (r1, c1) ≠ (r2, c2) in
  s1.2 = []
  ∧ Client.board s2.1 = Client.board v
  ∧ (entered → s2.2 = [Client.mkMoveRequest (game_id g) r1 c1 r2 c2])
  ∧ (¬ entered → s2.2 = [])
  ∧ (entered →
       ∀ now,
         is_Some
           (moveOf
              (makeMove r1 c1 r2 c2
                 (player_id (match color with
                             | White => white g
                             | Black => black g
                             end)) now g).1))
  ∧ (∀ st sid now,
       players st !! sid = None →
       handleMakeMove sid (game_id g) r1 c1 r2 c2 now st
       = (st, [Emit (ToSocket sid) (moveError gameOrPlayerNotFound)])).
Proof.
  intros Hb Hsel Hr1 Hc1 Hr2 Hc2. cbv zeta.
  assert (Hserver : ∀ st sid now,
            players st !! sid = None →
            handleMakeMove sid (game_id g) r1 c1 r2 c2 now st
            = (st, [Emit (ToSocket sid) (moveError gameOrPlayerNotFound)])).
  { intros st sid now Hp. unfold handleMakeMove. rewrite Hp.
    by destruct (Map_get (game_id g) (games st)). }
  assert (Hacc : ((∃ p, boardAt (board g) r1 c1 = Some p
                        ∧ belongsTo p color)
                  ∧ currentPlayer g = color ∧ (r1, c1) ≠ (r2, c2)) →
            ∀ now,
              is_Some
                (moveOf
                   (makeMove r1 c1 r2 c2
                      (player_id (match color with
                                  | White => white g
                                  | Black => black g
                                  end)) now g).1)).
  { intros ((p & Hp & Hbel) & Hturn & _) now. apply makeMove_is_Some.
    unfold acceptable, playerToMove. rewrite Hturn.
    split_and!; try done. by exists p. }
  cut (let gs := getGameState g in
       let s1 := Client.handleSquareClick (Some gs) (Some color) r1 c1 v in
       let s2 := Client.handleSquareClick (Some gs) (Some color) r2 c2 s1.1 in
       let entered :=
         (∃ p, boardAt (board g) r1 c1 = Some p ∧ belongsTo p color)
         ∧ currentPlayer g = color ∧ (r1, c1) ≠ (r2, c2) in
       s1.2 = []
       ∧ Client.board s2.1 = Client.board v
       ∧ (entered → s2.2 = [Client.mkMoveRequest (game_id g) r1 c1 r2 c2])
       ∧ (¬ entered → s2.2 = [])).
  { cbv zeta. intros (H1 & H2 & H3 & H4). by split_and!. }
  clear Hserver Hacc. cbv zeta.
  pose proof (client_owner_test color (boardAt (board g) r1 c1)) as Ho.
  set (sel := match boardAt (board g) r1 c1 with
              | Some _ => true | None => false end
              && ((isWhite color
                   && Client.isWhitePiece (boardAt (board g) r1 c1))
                  || (isBlack color
                      && Client.isBlackPiece (boardAt (board g) r1 c1)))
              && bool_decide (currentPlayer g = color)).
  assert (Hs1 : Client.handleSquareClick (Some (getGameState g))
                  (Some color) r1 c1 v
                = if sel then (Client.setSelectedSquare (Some (r1, c1)) v, [])
                  else (v, [])).
  { unfold Client.handleSquareClick. by rewrite Hsel, Hb. }
  rewrite Hs1. clear Hs1.
  assert (Hselected : sel = true
            ↔ (∃ p, boardAt (board g) r1 c1 = Some p ∧ belongsTo p color)
              ∧ currentPlayer g = color).
  { unfold sel. rewrite !andb_true_iff, Ho, bool_decide_eq_true.
    split.
    - by intros [[_ ?] ?].
    - intros [(p & Hp & Hbel) ?]. split; [|done]. split; [|by eauto].
      by rewrite Hp. }
  destruct sel eqn:Esel.
  - destruct (proj1 Hselected eq_refl) as [(p & Hp & Hbel) Hturn].
    cbn [fst snd]. split; [done|].
    unfold Client.handleSquareClick.
    cbn [Client.selectedSquare Client.setSelectedSquare gs_currentPlayer
         getGameState gs_id Client.board].
    destruct ((r1 =? r2) && (c1 =? c2)) eqn:Esame.
    + apply andb_true_iff in Esame as [E1%Z.eqb_eq E2%Z.eqb_eq]. subst r2 c2.
      cbn [fst snd Client.board]. split; [done|].
      split; [by intros (_ & _ & ?)|done].
    + assert (Hne : (r1, c1) ≠ (r2, c2)).
      { intros [= -> ->]. by rewrite !Z.eqb_refl in Esame. }
      rewrite (bool_decide_eq_true_2 _ Hturn).
      cbn [negb fst snd Client.board]. split; [done|]. split.
      * done.
      * intros Hn. exfalso. apply Hn. by eauto.
  - cbn [fst snd]. split; [done|].
    assert (Hn : ¬ ((∃ p, boardAt (board g) r1 c1 = Some p
                          ∧ belongsTo p color)
                    ∧ currentPlayer g = color)).
    { intros H. apply Hselected in H. done. }
    unfold Client.handleSquareClick. rewrite Hsel, Hb.
    match goal with
    | |- context [if ?b then (Client.setSelectedSquare _ v, []) else (v, [])]
      => destruct b
    end; cbn [fst snd Client.board Client.setSelectedSquare];
      (split; [done|]); (split; [|done]);
      intros (? & ? & _); by destruct Hn.
Qed.

(** White selects e2 and clicks e4 in the fixture: the intent is handed
    over; [Game.makeMove] accepts it under white's id, and the handler
    refuses it on a socket that never registered. *)
Lemma online_click_sends_move_witness :
  let v := Client.mkView (board game0) None White None in
  let gs := getGameState game0 in
  let s1 := Client.handleSquareClick (Some gs) (Some White) 6 4 v in
  let s2 := Client.handleSquareClick (Some gs) (Some White) 4 4 s1.1 in
  s2.2 = [Client.mkMoveRequest "g" 6 4 4 4]
  ∧ is_Some (moveOf (makeMove 6 4 4 4 "a" 1000 game0).1)
  ∧ handleMakeMove "n" "g" 6 4 4 4 1000 server0
    = (server0, [Emit (ToSocket "n") (moveError gameOrPlayerNotFound)]).
Proof.
  assert (Hb : ∀ x, x = 6 ∨ x = 4 → inBounds x)
    by (intros x [-> | ->]; unfold inBounds; lia).
  destruct (online_click_sends_move game0 White
              (Client.mkView (board game0) None White None) 6 4 4 4
              eq_refl eq_refl
              (Hb 6 (or_introl eq_refl)) (Hb 4 (or_intror eq_refl))
              (Hb 4 (or_intror eq_refl)) (Hb 4 (or_intror eq_refl)))
    as (_ & _ & H1 & _ & H2 & H3).
  assert (He : (∃ p, boardAt (board game0) 6 4 = Some p ∧ belongsTo p White)
               ∧ currentPlayer game0 = White ∧ (6, 4) ≠ (4, 4)).
  { split; [|split; [reflexivity|discriminate]].
    exists WP. split; reflexivity. }
  split; [exact (H1 He)|]. split; [exact (H2 He 1000)|].
  exact (H3 server0 "n" 1000 eq_refl).
Defined.

(** ** The clock display *)

Lemma seconds_two_digits (s : Z) :
  0 ≤ s < 60 →
  Client.padStart2 (pretty s)
  = (if s <? 10 then "0" +:+ pretty s else pretty s)
  ∧ String.length (Client.padStart2 (pretty s)) = 2%nat.
Proof.
  intros Hs.
  assert (Hall : Forall (λ s : Z,
            Client.padStart2 (pretty s)
            = (if s <? 10 then "0" +:+ pretty s else pretty s)
            ∧ String.length (Client.padStart2 (pretty s)) = 2%nat)
            (seqZ 0 60)).
  { vm_compute. repeat constructor. }
  rewrite Forall_forall in Hall. apply Hall. apply elem_of_seqZ. lia.
Qed.

(** X21. For a remaining time of zero or more milliseconds [formatTime]
    shows whole minutes, a colon and the seconds as exactly two digits:
    the seconds are below 60, are padded with a zero below 10, and minutes
    and seconds together are the time in whole seconds, rounded down. *)
Theorem formatTime_shape (milliseconds : Z) :
  0 ≤ milliseconds →
  ∃ minutes seconds,
    0 ≤ minutes ∧ 0 ≤ seconds < 60
    ∧ minutes * 60 + seconds = milliseconds `div` 1000
    ∧ Client.formatTime milliseconds
      = pretty minutes +:+ ":"
        +:+ (if seconds <? 10 then "0" +:+ pretty seconds
             else pretty seconds)
    ∧ String.length (Client.padStart2 (pretty seconds)) = 2%nat.
Proof.
  intros Hms.
  set (total := milliseconds `div` 1000).
  assert (Ht : 0 ≤ total) by (apply Z.div_pos; lia).
  exists (total `div` 60), (total `rem` 60).
  assert (Hrem : total `rem` 60 = total `mod` 60)
    by (apply Z.rem_mod_nonneg; lia).
  assert (Hs : 0 ≤ total `rem` 60 < 60)
    by (rewrite Hrem; apply Z.mod_pos_bound; lia).
  destruct (seconds_two_digits _ Hs) as [Hpad Hlen].
  assert (Hm : 0 ≤ total `div` 60) by (apply Z.div_pos; lia).
  pose proof (Z.div_mod total 60) as Hdm.
  split_and!; try lia; try done.
  unfold Client.formatTime. fold total. by rewrite Hpad.
Qed.

Lemma formatTime_shape_witness :
  0 ≤ 895000
  ∧ ∃ minutes seconds,
      0 ≤ minutes ∧ 0 ≤ seconds < 60
      ∧ minutes * 60 + seconds = 895000 `div` 1000
      ∧ Client.formatTime 895000
        = pretty minutes +:+ ":"
          +:+ (if seconds <? 10 then "0" +:+ pretty seconds
               else pretty seconds)
      ∧ String.length (Client.padStart2 (pretty seconds)) = 2%nat.
Proof.
  assert (H : 0 ≤ 895000) by lia.
  split; [exact H|]. exact (formatTime_shape 895000 H).
Defined.

(** The display of some clocks: a quarter of an hour, five seconds less,
    and the negative time an accepted move can leave on a clock. *)
Example formatTime_examples :
  Client.formatTime 900000 = "15:00"
  ∧ Client.formatTime 895000 = "14:55"
  ∧ Client.formatTime 65999 = "1:05"
  ∧ Client.formatTime (-100000) = "-2:-40".
Proof. vm_compute. split_and!; reflexivity. Qed.

(** ** Accepted moves and silent failures *)

(** X22. When the [makeMove] handler accepts a move, the registry holds
    the session after the move and the first event is [moveMade] to the
    session room, carrying the recorded move and a snapshot taken right
    after the move: new board, log ending with that move, the other side
    to move and the status as it was before. Nothing is sent to a single
    socket, and the only event that can follow is the [gameEnded] of the
    time check. *)
Theorem accepted_move_broadcast (st : Server) (sid gameId : string)
    (fromRow fromCol toRow toCol : Num) (now : Z) (g g1 : Game)
    (player : Player) (m : Move) :
  Map_get gameId (games st) = Some g →
  players st !! sid = Some player →
  makeMove fromRow fromCol toRow toCol sid now g = (returned (Some m), g1) →
  let r := handleMakeMove sid gameId fromRow fromCol toRow toCol now st in
  ∃ g2 rest,
    Map_get gameId (games r.1) = Some g2
    ∧ board g2 = board g1 ∧ moves g2 = moves g ++ [m]
    ∧ currentPlayer g2 = other (currentPlayer g)
    ∧ r.2 = Emit (ToRoom gameId) (moveMade m (getGameState g1)) :: rest
    ∧ gs_status (getGameState g1) = status g
    ∧ last (gs_moves (getGameState g1)) = Some m
    ∧ (rest = []
       ∨ ∃ result reason,
           rest = [Emit (ToRoom gameId)
                     (gameEnded result reason (getGameState g2))]).
Proof.
  intros Hg Hp Hm. cbv zeta.
  unfold handleMakeMove, moveSession. rewrite Hg, Hp, Hm.
  pose proof (checkTimeAfterMove_fields gameId g1)
    as (Hc & Hmv & Hb & _).
  assert (Hrest : (checkTimeAfterMove gameId g1).2 = []
            ∨ ∃ result reason,
                (checkTimeAfterMove gameId g1).2
                = [Emit (ToRoom gameId)
                     (gameEnded result reason
                        (getGameState (checkTimeAfterMove gameId g1).1))]).
  { unfold checkTimeAfterMove.
    destruct (whiteTime g1 <=? 0); [right; by eauto|].
    destruct (blackTime g1 <=? 0); [right; by eauto|]. by left. }
  destruct (checkTimeAfterMove gameId g1) as [g2 rest]. simpl in *.
  apply makeMove_Some in Hm as (Hcur & Hs & Hlog & _).
  exists g2, rest. rewrite Map_get_set_eq, Hb, Hmv, Hc, Hlog, Hcur, Hs.
  split_and!; try done. apply last_snoc.
Qed.

Lemma accepted_move_broadcast_witness :
  Map_get "g" (games server0) = Some game0
  ∧ players server0 !! "a" = Some alice
  ∧ (handleMakeMove "a" "g" 6 4 4 4 1000 server0).2
    = [Emit (ToRoom "g")
         (moveMade
            (mkMove (whole 6, whole 4) (whole 4, whole 4) WP None 1000 White)
            (getGameState (makeMove 6 4 4 4 "a" 1000 game0).2))].
Proof.
  split; [reflexivity|]. split; [reflexivity|].
  destruct (accepted_move_broadcast server0 "a" "g" 6 4 4 4 1000 game0
              (makeMove 6 4 4 4 "a" 1000 game0).2 alice
              (mkMove (whole 6, whole 4) (whole 4, whole 4) WP None 1000
                      White)
              eq_refl eq_refl eq_refl)
    as (g2 & rest & _ & _ & _ & _ & Heq & _).
  reflexivity.
Defined.

(** X23. Failures of [resign], [offerDraw] and [acceptDraw] are silent:
    for a session id that is not registered none of them changes the
    state or sends anything, and the same holds for [resign] by a socket
    that is not registered or is not a competitor of the session. Only
    [makeMove] and [spectateGame] answer an unknown id, with one error
    event to the caller. *)
Theorem failures_are_silent (st : Server) (sid gameId : string) :
  (Map_get gameId (games st) = None →
     resign sid gameId st = (st, [])
     ∧ offerDraw sid gameId st = (st, [])
     ∧ acceptDraw sid gameId st = (st, [])
     ∧ spectateGame sid gameId st = (st, [Emit (ToSocket sid) spectateError])
     ∧ ∀ fromRow fromCol toRow toCol now,
         handleMakeMove sid gameId fromRow fromCol toRow toCol now st
         = (st, [Emit (ToSocket sid) (moveError gameOrPlayerNotFound)]))
  ∧ (players st !! sid = None →
       resign sid gameId st = (st, [])
       ∧ offerDraw sid gameId st = (st, []))
  ∧ (∀ g, Map_get gameId (games st) = Some g → ¬ competitor sid g →
       resign sid gameId st = (st, [])).
Proof.
  split_and!.
  - intros Hg. unfold resign, offerDraw, acceptDraw, spectateGame,
      handleMakeMove. by rewrite Hg.
  - intros Hp. unfold resign, offerDraw. rewrite Hp.
    by destruct (Map_get gameId (games st)).
  - intros g Hg Hc. unfold resign, resignSession. rewrite Hg.
    destruct (players st !! sid) as [p|]; [|done].
    unfold competitor in Hc.
    rewrite !bool_decide_eq_false_2 by tauto. simpl.
    rewrite (Map_set_get_id _ _ _ Hg). by destruct st.
Qed.

Lemma failures_are_silent_witness :
  Map_get "g" (games server0) = Some game0
  ∧ ¬ competitor "s" game0
  ∧ resign "s" "g" server0 = (server0, []).
Proof.
  assert (Hc : ¬ competitor "s" game0).
  { intros [H|H]; simpl in H; discriminate. }
  split; [reflexivity|]. split; [exact Hc|].
  exact (proj2 (proj2 (failures_are_silent server0 "s" "g"))
           game0 eq_refl Hc).
Defined.

(** ** Searching again *)

(** X24. In a state the server reaches, when no waiting ticket is within
    the caller's range, [findMatch] puts the caller's ticket at the end of
    the queue, also when the caller already had a ticket further ahead,
    and searching again with the same range changes nothing more: the
    second call leaves the same state and reports the same position. *)
Theorem findMatch_again (st : Server) (sid : string)
    (ratingRange : option Z) (coin1 coin2 : bool) (id1 id2 : string)
    (now1 now2 : Z) (player : Player) :
  reachable st →
  players st !! sid = Some player →
  Forall (λ t, ¬ eligible player (ratingRangeOf ratingRange) t)
         (filter (λ p, player_id p ≠ sid) (waitingPlayers st)) →
  let r1 := findMatch sid ratingRange coin1 id1 now1 st in
  waitingPlayers r1.1
  = filter (λ p, player_id p ≠ sid) (waitingPlayers st) ++ [player]
  ∧ findMatch sid ratingRange coin2 id2 now2 r1.1 = r1.
Proof.
  intros Hr Hp Hnone. apply reachable_wf in Hr as Hwf.
  destruct Hwf as [Hnd Hid]. cbv zeta.
  set (queue := filter (λ p, player_id p ≠ sid) (waitingPlayers st)) in *.
  assert (Hfind : list_find
            (λ wp, inRange player (ratingRangeOf ratingRange) wp = true)
            queue = None).
  { apply list_find_None. eapply Forall_impl; [exact Hnone|].
    intros t Ht He. by apply Ht, inRange_eligible. }
  assert (H1 : ∀ coin id now,
            findMatch sid ratingRange coin id now st
            = (set_waitingPlayers (queue ++ [player]) st,
               [Emit (ToSocket sid)
                  (waitingForMatch (Z.of_nat (length (queue ++ [player])))
                     (Z.of_nat (length (queue ++ [player])) * 30))])).
  { intros coin id now. unfold findMatch. rewrite Hp.
    rewrite (removeWaiting_filter sid _ Hnd). fold queue.
    by rewrite Hfind. }
  rewrite H1. cbn [fst]. split; [done|].
  assert (Hwf1 : wf_server (set_waitingPlayers (queue ++ [player]) st)).
  { pose proof (findMatch_wf st sid ratingRange coin1 id1 now1
                  (conj Hnd Hid)) as Hw.
    by rewrite H1 in Hw. }
  destruct Hwf1 as [Hnd1 _].
  assert (Hq : filter (λ p, player_id p ≠ sid) (queue ++ [player]) = queue).
  { rewrite filter_app.
    rewrite (filter_all _ queue).
    - rewrite filter_cons_False; [by rewrite app_nil_r|].
      intros Hne. apply Hne. by apply Hid.
    - apply Forall_forall. intros p Hin.
      by apply list_elem_of_filter in Hin as [? _]. }
  cbn [waitingPlayers set_waitingPlayers] in Hnd1.
  unfold findMatch. cbn [players set_waitingPlayers waitingPlayers].
  rewrite Hp, (removeWaiting_filter sid (queue ++ [player]) Hnd1).
  by rewrite Hq, Hfind.
Qed.

Lemma findMatch_again_witness :
  let st := (findMatch "a" None true "x" 0
               (register "a" (Some "Alice") (Some 1500) emptyServer).1).1 in
  waitingPlayers (findMatch "a" None false "y" 7 st).1 = [alice]
  ∧ findMatch "a" None true "z" 9 (findMatch "a" None false "y" 7 st).1
    = findMatch "a" None false "y" 7 st.
Proof.
  assert (Hr : reachable
                 (findMatch "a" None true "x" 0
                    (register "a" (Some "Alice") (Some 1500)
                       emptyServer).1).1).
  { exists [in_register "a" (Some "Alice") (Some 1500);
            in_findMatch "a" None true "x" 0]. split; reflexivity. }
  refine (findMatch_again _ "a" None false true "y" "z" 7 9 alice Hr
            eq_refl _).
  vm_compute. constructor.
Defined.
